(** * imgsync: the sync orchestrator of package core, and the slot
      channels of the older package imgsync (gcr.go).

    Shallow embedding of [batchProcess], [checkSync], [sync2DockerHub],
    the per-image task and the set-up of [SyncImages], and of the
    goroutines of [Gcr.Sync] and [Gcr.gcrImageList]. *)

From Stdlib Require Import ZArith Lia List Bool.
From stdpp Require Import base option list strings gmap.
Import ListNotations.

Local Open Scope Z_scope.

(* ===================================================================== *)
(** ** Go's [int] (64 bits, two's complement) *)
(* ===================================================================== *)

Module GoInt.

Definition int_min : Z := - 2 ^ 63.
Definition int_max : Z := 2 ^ 63 - 1.

(** The value kept by a 64-bit signed register. *)
Definition wrap (z : Z) : Z := (z + 2 ^ 63) mod 2 ^ 64 - 2 ^ 63.

Definition in_range (z : Z) : Prop := int_min <= z <= int_max.

Definition sub (a b : Z) : Z := wrap (a - b).
Definition mul (a b : Z) : Z := wrap (a * b).

(** [a / b]: truncated towards zero; a zero divisor panics. *)
Definition div (a b : Z) : option Z :=
  if b =? 0 then None else Some (wrap (Z.quot a b)).

End GoInt.

(* ===================================================================== *)
(** ** Images and slices *)
(* ===================================================================== *)

(** [Image]: the four fields the source builds it from
    ([Image{Repo: .., User: .., Name: .., Tag: ..}]). *)
Record Image : Type := mkImage
  { Repo : string; User : string; Name : string; Tag : string }.

#[global] Instance Image_eq_dec : EqDecision Image.
Proof. solve_decision. Defined.

(** [Images] is a Go slice of [Image]; its visible elements are a list. *)
Abbreviation Images := (list Image).

(** [len(s)] as a Go [int]. *)
Definition len {A} (s : list A) : Z := Z.of_nat (length s).

(** [s[lo:]]: panics (None) unless [0 <= lo <= len(s)]. *)
Definition slice_from {A} (s : list A) (lo : Z) : option (list A) :=
  if (0 <=? lo) && (lo <=? len s) then Some (drop (Z.to_nat lo) s) else None.

(** [s[lo:hi]]: panics (None) unless [0 <= lo <= hi <= len(s)].  Go lets
    [hi] run up to the capacity of [s]; the capacity is not part of this
    model, so the length is used as the bound, which is the stricter one:
    a slice expression in bounds here is in bounds in Go. *)
Definition slice {A} (s : list A) (lo hi : Z) : option (list A) :=
  if (0 <=? lo) && (lo <=? hi) && (hi <=? len s)
  then Some (take (Z.to_nat (hi - lo)) (drop (Z.to_nat lo) s))
  else None.

(* ===================================================================== *)
(** ** SyncOption *)
(* ===================================================================== *)

(** A capacity-bounded channel, as far as the set-up code is concerned:
    what [make(chan Image, n)] was given. *)
Record Chan : Type := mkChan { chan_cap : Z }.

(** [runtime.makechan], behind every [make(chan T, n)]: it panics
    ("makechan: size out of range") when [n] is negative and when the
    buffer, [n] elements of [elemSize] bytes, is over
    [maxAlloc - hchanSize].  The figures are those of the 64-bit
    platforms whose [int] is [GoInt]: 48 address bits ([maxAlloc] is
    2^48) and a channel header of 96 bytes. *)
Definition maxAlloc : Z := 281474976710656.
Definition hchanSize : Z := 96.

Definition makechan_panics (elemSize n : Z) : bool :=
(n <? 0) || (maxAlloc - hchanSize <? elemSize * n).

(** An [Image] is four strings, each a pointer and a length. *)
Definition sizeofImage : Z := 64.

(** An [int] of the limit channels of gcr.go. *)
Definition sizeofInt : Z := 8.

Record SyncOption : Type := mkSyncOption
  { optUser : string;
    Password : string;
    Timeout : Z;
    Limit : Z;
    BatchSize : Z;
    BatchNumber : Z;
    OnlyDownloadManifests : bool;
    Report : bool;
    ReportLevel : Z;
    QueryLimit : Z;
    NameSpace : string;
    Kubeadm : bool;
    reportCh : option Chan }.

(* ===================================================================== *)
(** ** batchProcess *)
(* ===================================================================== *)

Definition batchProcess (images : Images) (opt : SyncOption) : option Images :=
  if (0 <? BatchSize opt) && (0 <? BatchNumber opt) && (BatchSize opt <? len images)
  then
    n ← GoInt.div (len images) (BatchSize opt);
    if n <=? BatchNumber opt
    then
      let start := GoInt.mul (BatchSize opt) (GoInt.sub n 1) in
      slice_from images start
    else
      let start := GoInt.mul (BatchSize opt) (GoInt.sub (BatchNumber opt) 1) in
      let end_ := GoInt.mul (BatchSize opt) (BatchNumber opt) in
      slice images start end_
  else Some images.

(** The Batch Partitioner as the specification words it, over unbounded
    integers and total list operations. *)
Definition Partition (images : Images) (batchSize batchNumber : Z) : Images :=
  if decide (batchSize <= 0 \/ batchNumber <= 0 \/ len images <= batchSize)
  then images
  else
    let n := len images / batchSize in
    if decide (batchNumber >= n)
    then drop (Z.to_nat (batchSize * (n - 1))) images
    else take (Z.to_nat (batchSize * batchNumber - batchSize * (batchNumber - 1)))
              (drop (Z.to_nat (batchSize * (batchNumber - 1))) images).

(** An option record that only sets the two batch fields. *)
Definition batchOpt (batchSize batchNumber : Z) : SyncOption :=
  {| optUser := EmptyString; Password := EmptyString; Timeout := 0; Limit := 0;
     BatchSize := batchSize; BatchNumber := batchNumber;
     OnlyDownloadManifests := false; Report := false; ReportLevel := 0;
     QueryLimit := 0; NameSpace := EmptyString; Kubeadm := false; reportCh := None |}.

Definition setBatchNumber (opt : SyncOption) (batchNumber : Z) : SyncOption :=
mkSyncOption (optUser opt) (Password opt) (Timeout opt) (Limit opt) (BatchSize opt)
  batchNumber (OnlyDownloadManifests opt) (Report opt) (ReportLevel opt)
  (QueryLimit opt) (NameSpace opt) (Kubeadm opt) (reportCh opt).

(** The elements of [s] at the positions [lo], .., [hi - 1]. *)
Definition segment {A} (s : list A) (lo hi : nat) : list A :=
take (hi - lo) (drop lo s).

(** The batches numbered [1], .., [n], each as [batchProcess] returns it. *)
Definition allBatches (images : Images) (opt : SyncOption) (n : Z)
  : option (list Images) :=
mapM (fun k : nat => batchProcess images (setBatchNumber opt (Z.of_nat k)))
     (seq 1 (Z.to_nat n)).

Definition tagged (name tag : string) : Image :=
  {| Repo := EmptyString; User := EmptyString; Name := name; Tag := tag |}.

Definition abc : Images := [tagged "a" "1"; tagged "b" "1"; tagged "c" "1"].

(* ===================================================================== *)
(** ** Effects: a state monad over the world the orchestrator runs in *)
(* ===================================================================== *)

Definition error : Type := string.
Definition bytes : Type := string.

(** The lines the code logs (logrus), by call site. *)
Inductive LogLine : Type :=
| LogStarting (total : Z)                        (* Infof  "starting sync images, image total: %d" *)
| LogPoolFailed (err : error)                    (* Fatalf "failed to create goroutines pool: %s" *)
| LogSubmitFailed (err : error)                  (* Fatalf "failed to submit task: %s" *)
| LogProcess (img : string)                      (* Debugf "process image: %s" *)
| LogFetchFailed (img : string) (err : error)    (* Errorf "failed to get image [%s] manifest, error: %s" *)
| LogNotChanged (img : string)                   (* Debugf "image [%s] not changed, skip sync..." *)
| LogStorageFailed (img : string) (err : error)  (* Errorf "failed to storage image [%s] manifests: %s" *)
| LogManifestBytes (bs : bytes)                  (* Debug  string(bs) *)
| LogProcessFailed (img : string) (err : error)  (* Errorf "failed to process image %s, error: %s" *)
| LogSyncing (src dst : string).                 (* Infof  "syncing %s => %s" *)

(** What a run does to the outside, in order of occurrence; a call that
    can fail is recorded with the error it returned. *)
Inductive Event : Type :=
| EvLog (line : LogLine)
| EvGetImageManifest (name : string)
| EvCopyImage (src dst : string) (err : option error)
| EvNewPool (size : Z)
| EvMkdirAll (dir : string) (err : option error)
| EvWriteFile (path : string) (bs : bytes) (err : option error).

#[global] Instance LogLine_eq_dec : EqDecision LogLine.
Proof. solve_decision. Defined.
#[global] Instance Event_eq_dec : EqDecision Event.
Proof. solve_decision. Defined.

Section Orchestrator.

(** [manifest.Manifest] and [manifest.List] are interfaces of the
    containers/image library, [Any] is Go's [interface{}] (the values
    kept in [manifestsMap]); a nil interface value is [None]. *)
Context {Manifest MList Any : Type}.

(** The mutable world: the trace so far, how often each kind of
    external call was made (the replies of the outside are indexed by
    these), the files written, and the package variable
    [manifestsMap]. *)
Record World : Type := mkWorld
  { trace : list Event;
    fetchCalls : nat;
    syncCalls : nat;
    fsCalls : nat;
    files : gmap string bytes;
    manifestsMap : gmap string Any }.

(** Everything [package core] takes from elsewhere: constants and
    helpers declared outside the files at hand, library calls, and the
    replies of the registries and of the file system. *)
Record Externals : Type := mkExternals
  { (* constants *)
    DefaultLimit : Z;
    DefaultDockerRepo : string;
    ManifestDir : string;
    DefaultGoRequestRetry : Z;
    DefaultGoRequestRetryTime : Z;
    defaultSyncRetry : Z;
    defaultSyncRetryTime : Z;
    (* helpers of the package *)
    MergeName : Image -> string;
    sortImages : Images -> Images;
    getImageManifest : string -> nat -> option Manifest * option MList * option error;
    (* reflect, jsoniter, filepath *)
    ifaceManifest : Manifest -> Any;
    ifaceList : MList -> Any;
    DeepEqual : Any -> Any -> bool;
    MarshalManifest : Manifest -> bytes * option error;
    MarshalList : option MList -> bytes * option error;
    pathJoin : list string -> string;
    (* containers/image *)
    NewPolicyContext : nat -> option error;
    ParseReference : string -> option error;
    copyImage : string -> string -> nat -> option error;
    (* ants, context, os, ioutil *)
    NewPool : Z -> option error;
    poolSubmit : nat -> option error;
    ctxDone : Image -> bool;
    osStat : string -> nat -> option error;
    osMkdirAll : string -> nat -> option error;
    WriteFile : string -> bytes -> nat -> option error;
    (* the runtime: whether it has the memory for a buffer of that many
       bytes; without it the process ends in a fatal error *)
    memoryFor : Z -> bool;
    (* what a [WriteFile] that returned an error had done: nothing when
       the file could not be opened ([None]); opened, which truncates
       it, and [n] bytes written ([Some n]) *)
    WriteFile_written : string -> bytes -> nat -> option nat }.

(** State passing over a state [S]. *)
Definition St (S A : Type) : Type := S -> A * S.

#[global] Instance St_ret S : MRet (St S) := fun A a s => (a, s).
#[global] Instance St_bind S : MBind (St S) :=
  fun A B f c s => f (fst (c s)) (snd (c s)).

Definition emit (e : Event) : St World unit :=
  fun w => (tt, mkWorld (trace w ++ [e]) (fetchCalls w) (syncCalls w)
                        (fsCalls w) (files w) (manifestsMap w)).

Definition logLine (line : LogLine) : St World unit := emit (EvLog line).

Definition when_err (e : option error) (k : error -> St World unit) : St World unit :=
  match e with Some err => k err | None => mret tt end.


(** Modelled from the spec: the helper [retry(count, interval, fn)] is
    declared outside the files at hand.  "On failure, retry up to a fixed
    attempt count with a fixed inter-attempt delay.  Exhausting retries
    surfaces the last error to the caller."  The delay is time and leaves
    no mark on the world.  [err] is the error of the latest attempt.  What
    a count below one does is not said; the properties below that depend
    on the result of [retry] are stated for a count of at least one. *)
Fixpoint retry_loop {S} (count : nat) (fn : St S (option error))
  (err : option error) : St S (option error) :=
match count with
| O => mret err
| S count' =>
    e ← fn;
    match e with
    | None => mret None
    | Some _ => retry_loop count' fn e
    end
end.

Definition retry {S} (count interval : Z) (fn : St S (option error))
  : St S (option error) :=
retry_loop (Z.to_nat count) fn None.

(** Modelled from the spec: [Image.String] is declared outside the files
    at hand; the string form of an image is "repo/namespace/name:tag". *)
Definition Image_String (image : Image) : string :=
Repo image +:+ "/" +:+ User image +:+ "/" +:+ Name image +:+ ":" +:+ Tag image.

Variable ext : Externals.

(** One call of [getImageManifest]: the registry's reply to this call. *)
Definition getImageManifest_call (name : string)
  : St World (option Manifest * option MList * option error) :=
fun w =>
  (getImageManifest ext name (fetchCalls w),
   mkWorld (trace w ++ [EvGetImageManifest name]) (S (fetchCalls w))
           (syncCalls w) (fsCalls w) (files w) (manifestsMap w)).

(* --------------------------------------------------------------------- *)
(** *** checkSync *)
(* --------------------------------------------------------------------- *)

(** The variables [m], [l], [merr] of [checkSync], which the function
    literal handed to [retry] assigns. *)
Record checkSyncVars : Type := mkCheckSyncVars
  { var_m : option Manifest; var_l : option MList; var_merr : option error }.

Definition checkSync_attempt (image : Image) : St (checkSyncVars * World) (option error) :=
fun '(_, w) =>
  let '(m, l, merr, w') := getImageManifest_call (Image_String image) w in
  (merr, (mkCheckSyncVars m l merr, w')).

(** [reflect.DeepEqual(x, val)] for an interface value [x] that is not nil. *)
Definition deepEqualManifest (m : option Manifest) (val : Any) : bool :=
match m with Some x => DeepEqual ext (ifaceManifest ext x) val | None => false end.

Definition deepEqualList (l : option MList) (val : Any) : bool :=
match l with Some x => DeepEqual ext (ifaceList ext x) val | None => false end.

(** [val, ok := manifestsMap[key]]: [ok] is the lookup finding a value;
    both disjuncts of the test need it. *)
Definition checkSync (image : Image)
  : St World (option Manifest * option MList * bool) :=
fun w =>
  let '(err, (vars, w1)) :=
    retry (DefaultGoRequestRetry ext) (DefaultGoRequestRetryTime ext)
          (checkSync_attempt image) (mkCheckSyncVars None None None, w) in
  match err with
  | Some e =>
      (_ ← logLine (LogFetchFailed (Image_String image) e);
       mret (None, None, false)) w1
  | None =>
      let m := var_m vars in
      let l := var_l vars in
      match manifestsMap w1 !! Image_String image with
      | Some val =>
          if (bool_decide (m <> None) && deepEqualManifest m val)
             || (bool_decide (l <> None) && deepEqualList l val)
          then
            (_ ← logLine (LogNotChanged (Image_String image));
             mret (None, None, false)) w1
          else (m, l, true, w1)
      | None => (m, l, true, w1)
      end
  end.

(* --------------------------------------------------------------------- *)
(** *** sync2DockerHub *)
(* --------------------------------------------------------------------- *)

(** The number of this call of [sync2DockerHub] among those that reach
    the library. *)
Definition nextSyncCall : St World nat :=
fun w => (syncCalls w,
          mkWorld (trace w) (fetchCalls w) (S (syncCalls w)) (fsCalls w)
                  (files w) (manifestsMap w)).

Definition sync2DockerHub (image : Image) (opt : SyncOption) : St World (option error) :=
if OnlyDownloadManifests opt then mret None
else
  let destImage :=
    {| Repo := DefaultDockerRepo ext; User := optUser opt;
       Name := MergeName ext image; Tag := Tag image |} in
  _ ← logLine (LogSyncing (Image_String image) (Image_String destImage));
  k ← nextSyncCall;
  match NewPolicyContext ext k with
  | Some err => mret (Some err)
  | None =>
      match ParseReference ext ("//" +:+ Image_String image) with
      | Some err => mret (Some err)
      | None =>
          match ParseReference ext ("//" +:+ Image_String destImage) with
          | Some err => mret (Some err)
          | None =>
              let err := copyImage ext (Image_String image) (Image_String destImage) k in
              _ ← emit (EvCopyImage (Image_String image) (Image_String destImage) err);
              mret err
          end
      end
  end.

(* --------------------------------------------------------------------- *)
(** *** The task SyncImages submits for one image *)
(* --------------------------------------------------------------------- *)

Definition nextFsCall : St World nat :=
fun w => (fsCalls w,
          mkWorld (trace w) (fetchCalls w) (syncCalls w) (S (fsCalls w))
                  (files w) (manifestsMap w)).

Definition osMkdirAll_call (dir : string) : St World (option error) :=
k ← nextFsCall;
let err := osMkdirAll ext dir k in
_ ← emit (EvMkdirAll dir err);
mret err.

(** The files once [path] holds [content]. *)
Definition setFile (path : string) (content : bytes) (w : World) : World :=
mkWorld (trace w) (fetchCalls w) (syncCalls w) (fsCalls w)
        (<[path := content]> (files w)) (manifestsMap w).

(** [ioutil.WriteFile] opens the file with [O_TRUNC], writes and closes.
    The file holds [bs] afterwards when the call returns no error.  When
    it returns one, the file is as before if it could not be opened, and
    holds what was written of [bs] before the error, nothing or a part,
    if it was. *)
Definition storeFile (path : string) (bs : bytes) (k : nat) (err : option error)
  : St World unit :=
fun w =>
  (tt,
   match err with
   | None => setFile path bs w
   | Some _ =>
       match WriteFile_written ext path bs k with
       | None => w
       | Some n => setFile path (String.substring 0 n bs) w
       end
   end).

Definition WriteFile_call (path : string) (bs : bytes) : St World (option error) :=
k ← nextFsCall;
let err := WriteFile ext path bs k in
_ ← emit (EvWriteFile path bs err);
_ ← storeFile path bs k err;
mret err.

Definition persistManifest (image : Image) (bs : bytes) : St World unit :=
let storageDir := pathJoin ext [ManifestDir ext; Repo image; User image; Name image] in
k ← nextFsCall;
_ ← match osStat ext storageDir k with
    | Some _ =>
        err ← osMkdirAll_call storageDir;
        when_err err (fun e => logLine (LogStorageFailed (Image_String image) e))
    | None => mret tt
    end;
ferr ← WriteFile_call (pathJoin ext [storageDir; Tag image +:+ ".json"]) bs;
when_err ferr (fun e => logLine (LogStorageFailed (Image_String image) e)).

Definition syncTask (image : Image) (opt : SyncOption) : St World unit :=
if ctxDone ext image then mret tt
else
  _ ← logLine (LogProcess (Image_String image));
  '(m, l, needSync) ← checkSync image;
  if negb needSync then mret tt
  else
    let '(bs, err) :=
      match m with
      | Some x => MarshalManifest ext x
      | None => MarshalList ext l
      end in
    _ ← when_err err (fun e => logLine (LogStorageFailed (Image_String image) e));
    _ ← logLine (LogManifestBytes bs);
    rerr ← retry (defaultSyncRetry ext) (defaultSyncRetryTime ext)
                 (sync2DockerHub image opt);
    match rerr with
    | Some e => logLine (LogProcessFailed (Image_String image) e)
    | None => persistManifest image bs
    end.

(* --------------------------------------------------------------------- *)
(** *** SyncImages *)
(* --------------------------------------------------------------------- *)

(** [make(chan Image, n)]; [None] when the run ends there: on the panic
    of [runtime.makechan], and when the runtime has not the memory for
    the buffer. *)
Definition make_chan (n : Z) : option Chan :=
if makechan_panics sizeofImage n then None
else if memoryFor ext (sizeofImage * n) then Some (mkChan n)
else None.

Definition setLimit (opt : SyncOption) (limit : Z) : SyncOption :=
mkSyncOption (optUser opt) (Password opt) (Timeout opt) limit (BatchSize opt)
  (BatchNumber opt) (OnlyDownloadManifests opt) (Report opt) (ReportLevel opt)
  (QueryLimit opt) (NameSpace opt) (Kubeadm opt) (reportCh opt).

Definition setReportCh (opt : SyncOption) (ch : Chan) : SyncOption :=
mkSyncOption (optUser opt) (Password opt) (Timeout opt) (Limit opt) (BatchSize opt)
  (BatchNumber opt) (OnlyDownloadManifests opt) (Report opt) (ReportLevel opt)
  (QueryLimit opt) (NameSpace opt) (Kubeadm opt) (Some ch).

(** The two statements between [processWg.Add] and [ants.NewPool]; [opt]
    is a pointer in the source, the record returned is what it points to
    afterwards. *)
Definition SyncImages_setup (opt : SyncOption) : option SyncOption :=
let opt1 := if Limit opt =? 0 then setLimit opt (DefaultLimit ext) else opt in
if Report opt1
then ch ← make_chan (Limit opt1); Some (setReportCh opt1 ch)
else Some opt1.

(** How a run ends: [SyncImages] returns, [logrus.Fatalf] ends the
    process, or the runtime does (a panic, or its fatal error for want of
    memory). *)
Inductive Exit : Type := Returned | Fatal | Panicked.

(** The loop over [imgs].  The pool runs the submitted tasks on its
    workers; they are run here one after the other in the order of
    submission, which is one of the pool's schedules. *)
Fixpoint submitAll (imgs : Images) (opt : SyncOption) (i : nat) : St World Exit :=
match imgs with
| [] => mret Returned
| image :: rest =>
    match poolSubmit ext i with
    | Some err => _ ← logLine (LogSubmitFailed err); mret Fatal
    | None => _ ← syncTask image opt; submitAll rest opt (S i)
    end
end.

Definition SyncImages (images : Images) (opt : SyncOption) : St World (Exit * SyncOption) :=
match batchProcess images opt with
| None => mret (Panicked, opt)
| Some imgs =>
    _ ← logLine (LogStarting (len imgs));
    match SyncImages_setup opt with
    | None => mret (Panicked, opt)
    | Some opt' =>
        _ ← emit (EvNewPool (Limit opt'));
        match NewPool ext (Limit opt') with
        | Some err => _ ← logLine (LogPoolFailed err); mret (Fatal, opt')
        | None => x ← submitAll (sortImages ext imgs) opt' 0; mret (x, opt')
        end
    end
end.

(** The events a computation adds to the trace of [w]. *)
Definition eventsOf {A} (c : St World A) (w : World) : list Event :=
drop (length (trace w)) (trace (snd (c w))).

(** Modelled from the spec: SyncOutcome, "one of Skipped-Unchanged,
    Synced, FailedFetch, FailedCopy, FailedPersist".  The source has no
    value of this kind: what became of an image shows in what its task
    logged and called, from which the outcome is read. *)
Inductive SyncOutcome : Type :=
| SkippedUnchanged | Synced | FailedFetch | FailedCopy | FailedPersist.

Definition isFetchFailed (e : Event) : bool :=
match e with EvLog (LogFetchFailed _ _) => true | _ => false end.
Definition isNotChanged (e : Event) : bool :=
match e with EvLog (LogNotChanged _) => true | _ => false end.
Definition isProcessFailed (e : Event) : bool :=
match e with EvLog (LogProcessFailed _ _) => true | _ => false end.
Definition isCopy (e : Event) : bool :=
match e with EvCopyImage _ _ _ => true | _ => false end.
Definition isPersist (e : Event) : bool :=
match e with EvMkdirAll _ _ | EvWriteFile _ _ _ => true | _ => false end.
Definition isWrite (e : Event) : bool :=
match e with EvWriteFile _ _ _ => true | _ => false end.

Definition isFetch (e : Event) : bool :=
match e with EvGetImageManifest _ => true | _ => false end.
Definition isSyncing (e : Event) : bool :=
match e with EvLog (LogSyncing _ _) | EvCopyImage _ _ _ => true | _ => false end.
Definition isStorage (e : Event) : bool :=
match e with
| EvLog (LogStorageFailed _ _) | EvMkdirAll _ _ | EvWriteFile _ _ _ => true
| _ => false
end.
Definition isMarshalLog (e : Event) : bool :=
match e with
| EvLog (LogStorageFailed _ _) | EvLog (LogManifestBytes _) => true
| _ => false
end.

(** [c], run on a state that holds the world at [proj], only adds events
    of kind [P] to the trace, leaves [manifestsMap] as it is, and leaves
    the files as they are unless a write is among the events. *)
Definition runs {S A} (proj : S -> World) (P : Event -> bool) (c : St S A) : Prop :=
forall s : S,
  exists evs : list Event,
    trace (proj (snd (c s))) = trace (proj s) ++ evs /\
    forallb P evs = true /\
    manifestsMap (proj (snd (c s))) = manifestsMap (proj s) /\
    (existsb isWrite evs = false -> files (proj (snd (c s))) = files (proj s)).

(** The world after [k] more calls of [getImageManifest] for [name]. *)
Definition fetched (w : World) (name : string) (k : nat) : World :=
mkWorld (trace w ++ replicate k (EvGetImageManifest name)) (fetchCalls w + k)
        (syncCalls w) (fsCalls w) (files w) (manifestsMap w).

(** The registry's reply to the [i]-th call from [w] on is an error. *)
Definition fetchFails (name : string) (w : World) (i : nat) : Prop :=
snd (getImageManifest ext name (fetchCalls w + i)) <> None.

Definition isCheck (e : Event) : bool :=
isFetch e || isFetchFailed e || isNotChanged e.
Definition noEvent (e : Event) : bool := false.

Definition notSyncing (e : Event) : bool := negb (isSyncing e).

(** The line logged for an error of the storage step, if there is one. *)
Definition storageLog (name : string) (err : option error) : list Event :=
match err with
| Some e => [EvLog (LogStorageFailed name e)]
| None => []
end.

Definition isProcessLine (e : Event) : bool :=
match e with EvLog (LogProcess _) => true | _ => false end.
Definition isSetup (e : Event) : bool :=
match e with
| EvLog (LogStarting _) | EvLog (LogPoolFailed _) | EvLog (LogSubmitFailed _)
| EvNewPool _ => true
| _ => false
end.
Definition isGoodCopy (e : Event) : bool :=
match e with EvCopyImage _ _ None => true | _ => false end.

(** The image [sync2DockerHub] copies to. *)
Definition destImageOf (image : Image) (opt : SyncOption) : Image :=
{| Repo := DefaultDockerRepo ext; User := optUser opt;
   Name := MergeName ext image; Tag := Tag image |}.

(** The file the task stores the manifest of [image] in. *)
Definition manifestPath (image : Image) : string :=
pathJoin ext [pathJoin ext [ManifestDir ext; Repo image; User image; Name image];
              Tag image +:+ ".json"].

(** No copy event comes after a copy that returned no error. *)
Fixpoint noCopyAfterGood (evs : list Event) : bool :=
match evs with
| [] => true
| e :: rest =>
    if isGoodCopy e then negb (existsb isCopy rest) else noCopyAfterGood rest
end.


(** No outcome ([None]) is that of a task abandoned on cancellation. *)
Definition outcomeOf (evs : list Event) : option SyncOutcome :=
if existsb isFetchFailed evs then Some FailedFetch
else if existsb isNotChanged evs then Some SkippedUnchanged
else if existsb isProcessFailed evs then Some FailedCopy
else if existsb isWrite evs then Some Synced
else None.

End Orchestrator.

(* ===================================================================== *)
(** ** A concrete outside, to run the definitions on *)
(* ===================================================================== *)

(** Manifests, lists and cached values are strings compared letter by
    letter; budgets of three attempts; the registry answers the call
    numbered [k] with [fetch k], the copy numbered [k] returns [copy k];
    the storage directory is missing and can be made; the runtime has a
    gigabyte for a buffer. *)
Definition demoExt
  (fetch : nat -> option string * option string * option error)
  (copy : nat -> option error) (cancel : bool)
  : @Externals string string string :=
{| DefaultLimit := 20;
   DefaultDockerRepo := "docker.io";
   ManifestDir := "manifests";
   DefaultGoRequestRetry := 3;
   DefaultGoRequestRetryTime := 1;
   defaultSyncRetry := 3;
   defaultSyncRetryTime := 1;
   MergeName := fun image => User image +:+ "_" +:+ Name image;
   sortImages := fun imgs => imgs;
   getImageManifest := fun _ k => fetch k;
   ifaceManifest := fun m => m;
   ifaceList := fun l => l;
   DeepEqual := String.eqb;
   MarshalManifest := fun m => (m, None);
   MarshalList := fun l => (default "null" l, None);
   pathJoin := String.concat "/";
   NewPolicyContext := fun _ => None;
   ParseReference := fun _ => None;
   copyImage := fun _ _ k => copy k;
   NewPool := fun _ => None;
   poolSubmit := fun _ => None;
   ctxDone := fun _ => cancel;
   osStat := fun _ _ => Some "no such file or directory";
   osMkdirAll := fun _ _ => None;
   WriteFile := fun _ _ _ => None;
   memoryFor := fun n => n <=? 1073741824;
   WriteFile_written := fun _ _ _ => None |}.

(** The same outside with a pool that may refuse to be created or to
    take a task. *)
Definition demoPoolExt
  (newPool : Z -> option error) (submit : nat -> option error)
  : @Externals string string string :=
let e := demoExt (fun _ => (Some "sha256:aa", None, None)) (fun _ => None) false in
mkExternals (DefaultLimit e) (DefaultDockerRepo e) (ManifestDir e)
  (DefaultGoRequestRetry e) (DefaultGoRequestRetryTime e) (defaultSyncRetry e)
  (defaultSyncRetryTime e) (MergeName e) (sortImages e) (getImageManifest e)
  (ifaceManifest e) (ifaceList e) (DeepEqual e) (MarshalManifest e) (MarshalList e)
  (pathJoin e) (NewPolicyContext e) (ParseReference e) (copyImage e)
  newPool submit (ctxDone e) (osStat e) (osMkdirAll e) (WriteFile e)
  (memoryFor e) (WriteFile_written e).

Definition pause31 : Image :=
{| Repo := "gcr.io"; User := "google-containers"; Name := "pause"; Tag := "3.1" |}.

Definition freshWorld (cache : gmap string string) : @World string :=
mkWorld [] 0 0 0 ∅ cache.

Definition pause : Image :=
{| Repo := "gcr.io"; User := "google-containers"; Name := "pause"; Tag := "3.2" |}.

(** The registry is down. *)
Definition fetchDown (k : nat) : option string * option string * option error :=
(None, None, Some "timeout").

(** The registry fails the first call and then returns a manifest. *)
Definition fetchSecond (k : nat) : option string * option string * option error :=
match k with
| O => (None, None, Some "timeout")
| _ => (Some "sha256:aa", None, None)
end.

(** The copy fails twice and then succeeds. *)
Definition copyThird (k : nat) : option error :=
match k with
| O | 1%nat => Some "connection reset"
| _ => None
end.

Definition copyDown (k : nat) : option error := Some "denied".

(** Manifests only, with a report and no limit given. *)
Definition manifestsOnlyOpt : SyncOption :=
{| optUser := "mirror"; Password := "secret"; Timeout := 600; Limit := 0;
   BatchSize := 0; BatchNumber := 0; OnlyDownloadManifests := true;
   Report := true; ReportLevel := 0; QueryLimit := 0; NameSpace := EmptyString;
   Kubeadm := false; reportCh := None |}.

Definition negativeLimitOpt : SyncOption := setLimit manifestsOnlyOpt (-1).

(** A limit of 2^62 with [Report] set. *)
Definition largeLimitOpt : SyncOption := setLimit manifestsOnlyOpt 4611686018427387904.

(* ===================================================================== *)
(** ** gcr.go: the slot channels of [Gcr.Sync] and [Gcr.gcrImageList] *)
(* ===================================================================== *)

Module Gcr.

Record Gcr : Type := mkGcr { QueryLimit : Z; ProcessLimit : Z }.

(** [Init]: the capacities [queryLimitCh] and [processLimitCh] are made
    with. *)
Definition Init_queryCap (g : Gcr) : Z :=
if QueryLimit g =? 0 then 20 else QueryLimit g.

Definition Init_processCap (g : Gcr) : Z :=
if ProcessLimit g =? 0 then 20 else ProcessLimit g.

(** Where a goroutine stands; [acquired] records whether it has sent its
    value into the limit channel. *)
Inductive PC : Type :=
| Spawned                      (* at the select (Sync), at the send (gcrImageList) *)
| Working                      (* value sent; in g.process, in the tag query *)
| Leaving (acquired : bool)    (* body left; the deferred function is to run *)
| Gone (acquired : bool).      (* deferred function done: one value received, Done() *)

Inductive Move : Type :=
| Send        (* limitCh <- 1 *)
| TakeDone    (* case <-ctx.Done() *)
| Return      (* the body returns *)
| Recv.       (* <-limitCh in the deferred function *)

(** The limit channel carries only the value 1: its state is the number
    of buffered values, under its capacity. *)
Record Sys : Type := mkSys
  { chLen : nat; chCap : nat; cancelled : bool; gos : list PC }.

(** A goroutine of [Gcr.Sync]:
    [defer func() { <-g.processLimitCh; processWg.Done() }()] and then
    [select { case g.processLimitCh <- 1: g.process(..); case <-ctx.Done(): }]. *)
Definition Sync_goroutine (s : Sys) (pc : PC) (m : Move) : option (PC * nat) :=
match pc, m with
| Spawned, Send => if (chLen s <? chCap s)%nat then Some (Working, S (chLen s)) else None
| Spawned, TakeDone => if cancelled s then Some (Leaving false, chLen s) else None
| Working, Return => Some (Leaving true, chLen s)
| Leaving a, Recv => if (0 <? chLen s)%nat then Some (Gone a, pred (chLen s)) else None
| _, _ => None
end.

(** A goroutine of [Gcr.gcrImageList]:
    [defer func() { <-g.queryLimitCh; imgGetWg.Done() }()] and then
    [g.queryLimitCh <- 1] followed by the query. *)
Definition gcrImageList_goroutine (s : Sys) (pc : PC) (m : Move) : option (PC * nat) :=
match pc, m with
| Spawned, Send => if (chLen s <? chCap s)%nat then Some (Working, S (chLen s)) else None
| Working, Return => Some (Leaving true, chLen s)
| Leaving a, Recv => if (0 <? chLen s)%nat then Some (Gone a, pred (chLen s)) else None
| _, _ => None
end.

Inductive Action : Type :=
| Go (i : nat) (m : Move)    (* goroutine [i] moves *)
| Cancel.                    (* the deadline of [ctx] passes *)

Definition step (goroutine : Sys -> PC -> Move -> option (PC * nat))
  (s : Sys) (a : Action) : option Sys :=
match a with
| Cancel => if cancelled s then None else Some (mkSys (chLen s) (chCap s) true (gos s))
| Go i m =>
    pc ← gos s !! i;
    '(pc', n) ← goroutine s pc m;
    Some (mkSys n (chCap s) (cancelled s) (<[i := pc']> (gos s)))
end.

Fixpoint run (goroutine : Sys -> PC -> Move -> option (PC * nat))
  (s : Sys) (acts : list Action) : option Sys :=
match acts with
| [] => Some s
| a :: rest => s' ← step goroutine s a; run goroutine s' rest
end.

(** [make(chan int, cap)]; [None] is the panic of [runtime.makechan], on
    a negative capacity and on one too large; a buffer within the bound
    is taken to be allocated.  [Init] never asks for capacity zero, so
    the channel is a buffered one. *)
Definition make_limitCh (cap : Z) : option nat :=
if makechan_panics sizeofInt cap then None else Some (Z.to_nat cap).

(** [n] goroutines spawned over an empty channel of capacity [cap]. *)
Definition spawn (cap : nat) (n : nat) : Sys :=
mkSys 0 cap false (replicate n Spawned).

(** The goroutine holds a slot: it sent a value and has not yet received
    one. *)
Definition holds (pc : PC) : bool :=
match pc with Working | Leaving true => true | _ => false end.

(** The goroutine received a value from the channel without having sent
    one. *)
Definition releasedUnacquired (pc : PC) : bool :=
match pc with Gone false => true | _ => false end.

(** The goroutine stands before its deferred receive without having sent
    a value. *)
Definition unacquired (pc : PC) : bool :=
match pc with Leaving false | Gone false => true | _ => false end.

(** How many goroutines hold a slot. *)
Definition holders (l : list PC) : nat := length (List.filter holds l).

(** The bookkeeping is sound in [s]: no goroutine is past its body
    without having sent, and the channel buffers one value per holder. *)
Definition matched (s : Sys) : Prop :=
(forall pc, In pc (gos s) -> unacquired pc = false) /\
chLen s = holders (gos s).

End Gcr.

(* ===================================================================== *)
(** ** gcr.go: [Gcr.Init], and how far the goroutines have to go *)
(* ===================================================================== *)

Module GcrInit.

(** The struct [Gcr]; a [time.Duration] is a number of nanoseconds, a
    channel is known by its capacity, [None] being the nil channel. *)
Record Gcr : Type := mkGcr
  { NameSpace : string;
    DockerHubUser : string;
    DockerHubPassword : string;
    SyncTimeOut : Z;
    HttpTimeOut : Z;
    QueryLimit : Z;
    ProcessLimit : Z;
    queryLimitCh : option nat;
    processLimitCh : option nat }.

Definition Second : Z := 1000000000.
Definition Hour : Z := 3600 * Second.

Inductive Result : Type :=
| Ready (g : Gcr)    (* "init success...", [g] returned *)
| Fatal              (* logrus.Fatal: the process exits *)
| Panicked.          (* [make] refused the capacity *)

Definition isEmpty (s : string) : bool := bool_decide (s = EmptyString).

(** [Init], statement by statement: the three defaults, the two
    channels, the check of the credentials. *)
Definition Init (g : Gcr) : Result :=
let ns := if isEmpty (NameSpace g) then "google-containers" else NameSpace g in
let st := if SyncTimeOut g =? 0 then 1 * Hour else SyncTimeOut g in
let ht := if HttpTimeOut g =? 0 then 5 * Second else HttpTimeOut g in
match Gcr.make_limitCh (if QueryLimit g =? 0 then 20 else QueryLimit g) with
| None => Panicked
| Some qch =>
    match Gcr.make_limitCh (if ProcessLimit g =? 0 then 20 else ProcessLimit g) with
    | None => Panicked
    | Some pch =>
        if isEmpty (DockerHubUser g) || isEmpty (DockerHubPassword g)
        then Fatal
        else Ready (mkGcr ns (DockerHubUser g) (DockerHubPassword g) st ht
                          (QueryLimit g) (ProcessLimit g) (Some qch) (Some pch))
    end
end.

(** The two limits of [g] as the record of the slot-channel model. *)
Definition limits (g : Gcr) : Gcr.Gcr := Gcr.mkGcr (QueryLimit g) (ProcessLimit g).

Definition rawGcr : Gcr :=
mkGcr EmptyString "mirror" "secret" 0 0 0 3 None None.

End GcrInit.

Module GcrSteps.
Import Gcr.

(** The moves a goroutine has before it: send, return, receive. *)
Definition todo (pc : PC) : nat :=
match pc with
| Spawned => 3
| Working => 2
| Leaving _ => 1
| Gone _ => 0
end.

Definition work (l : list PC) : nat := list_sum (map todo l).

(** What is left to happen in [s]: the moves of the goroutines and the
    passing of the deadline. *)
Definition potential (s : Sys) : nat :=
(work (gos s) + if cancelled s then 0 else 1)%nat.

(** The goroutine is over and gave back the slot it took. *)
Definition finished (pc : PC) : bool :=
match pc with Gone true => true | _ => false end.

Abbreviation Goroutine := (Sys -> PC -> Move -> option (PC * nat)).

(** Every move takes the goroutine further, and does not fill the
    channel beyond its capacity. *)
Definition sound (goroutine : Goroutine) : Prop :=
forall s pc m pc' n,
  goroutine s pc m = Some (pc', n) ->
  (todo pc' < todo pc)%nat /\ ((chLen s <= chCap s)%nat -> (n <= chCap s)%nat).

End GcrSteps.

(* ===================================================================== *)
(** * Properties *)
(* ===================================================================== *)

(** ** Go integers *)

(** When [runtime.makechan] takes a capacity. *)
Lemma makechan_panics_false (elemSize n : Z) :
  makechan_panics elemSize n = false
  <-> 0 <= n /\ elemSize * n <= maxAlloc - hchanSize.
Proof.
  unfold makechan_panics. rewrite orb_false_iff, Z.ltb_ge, Z.ltb_ge. reflexivity.
Qed.

Lemma makechan_panics_true (elemSize n : Z) :
  makechan_panics elemSize n = true
  <-> n < 0 \/ maxAlloc - hchanSize < elemSize * n.
Proof.
  unfold makechan_panics. rewrite orb_true_iff, Z.ltb_lt, Z.ltb_lt. reflexivity.
Qed.

Lemma wrap_id z : GoInt.in_range z -> GoInt.wrap z = z.
Proof.
  unfold GoInt.in_range, GoInt.int_min, GoInt.int_max, GoInt.wrap. intros H.
  rewrite Z.mod_small; lia.
Qed.

Lemma len_nonneg {A} (s : list A) : 0 <= len s.
Proof. unfold len. lia. Qed.

(** ** batchProcess *)

Example batch_abc_1 : batchProcess abc (batchOpt 2 1) = Some abc.
Proof. reflexivity. Qed.

Example batch_abcabc_2_1 :
  batchProcess (abc ++ abc) (batchOpt 2 1) = Some [tagged "a" "1"; tagged "b" "1"].
Proof. reflexivity. Qed.

Example batch_abcabc_2_9 :
  batchProcess (abc ++ abc) (batchOpt 2 9) = Some [tagged "b" "1"; tagged "c" "1"].
Proof. reflexivity. Qed.

(** What the guarded branch computes, without wrap-around: the number of
    batches [n] and the bounds it lies within. *)
Lemma batch_count_bounds (L bs : Z) :
  0 < bs -> bs < L -> L <= GoInt.int_max ->
  GoInt.div L bs = Some (L / bs) /\ 1 <= L / bs /\ bs * (L / bs) <= L.
Proof.
  intros Hbs HL Hmax.
  assert (Hq : Z.quot L bs = L / bs) by (apply Z.quot_div_nonneg; lia).
  assert (H1 : 1 <= L / bs) by (apply Z.div_le_lower_bound; lia).
  assert (H2 : bs * (L / bs) <= L) by (apply Z.mul_div_le; lia).
  assert (H3 : L / bs <= L) by nia.
  repeat split; try assumption.
  unfold GoInt.div. destruct (Z.eqb_spec bs 0); [lia|].
  rewrite Hq, wrap_id; [reflexivity|].
  unfold GoInt.in_range, GoInt.int_min, GoInt.int_max in *. lia.
Qed.

Lemma mul_sub_exact (L bs k : Z) :
  0 < bs -> 1 <= k -> bs * k <= L -> L <= GoInt.int_max ->
  GoInt.mul bs (GoInt.sub k 1) = bs * (k - 1) /\ GoInt.mul bs k = bs * k.
Proof.
  intros Hbs Hk HkL Hmax.
  assert (k <= L) by nia.
  unfold GoInt.mul, GoInt.sub.
  rewrite (wrap_id (k - 1)), !wrap_id; [split; reflexivity | |  | ];
    unfold GoInt.in_range, GoInt.int_min, GoInt.int_max in *; nia.
Qed.

(** The guarded branch in closed form: both slice expressions are in
    bounds and yield these lists. *)
Lemma batchProcess_guarded (images : Images) (opt : SyncOption) :
  0 < BatchSize opt -> 0 < BatchNumber opt -> BatchSize opt < len images ->
  len images <= GoInt.int_max ->
  batchProcess images opt =
  Some (if decide (len images / BatchSize opt <= BatchNumber opt)
        then drop (Z.to_nat (BatchSize opt * (len images / BatchSize opt - 1))) images
        else take (Z.to_nat (BatchSize opt))
                  (drop (Z.to_nat (BatchSize opt * (BatchNumber opt - 1))) images)).
Proof.
  intros Hbs Hbn HL Hmax. unfold batchProcess.
  destruct (batch_count_bounds _ _ Hbs HL Hmax) as (Hdiv & Hn1 & HnL).
  set (bs := BatchSize opt) in *. set (bn := BatchNumber opt) in *.
  set (n := len images / bs) in *.
  replace (0 <? bs) with true by (symmetry; apply Z.ltb_lt; lia).
  replace (0 <? bn) with true by (symmetry; apply Z.ltb_lt; lia).
  replace (bs <? len images) with true by (symmetry; apply Z.ltb_lt; lia).
  rewrite Hdiv. simpl.
  destruct (Z.leb_spec n bn) as [Hle|Hlt].
  - destruct (mul_sub_exact (len images) bs n Hbs Hn1 HnL Hmax) as [-> _].
    rewrite decide_True by lia. unfold slice_from.
    replace (0 <=? bs * (n - 1)) with true by (symmetry; apply Z.leb_le; nia).
    replace (bs * (n - 1) <=? len images) with true by (symmetry; apply Z.leb_le; nia).
    reflexivity.
  - assert (Hk : bs * bn <= len images) by nia.
    destruct (mul_sub_exact (len images) bs bn Hbs ltac:(lia) Hk Hmax) as [-> ->].
    rewrite decide_False by lia. unfold slice.
    replace (0 <=? bs * (bn - 1)) with true by (symmetry; apply Z.leb_le; nia).
    replace (bs * (bn - 1) <=? bs * bn) with true by (symmetry; apply Z.leb_le; nia).
    replace (bs * bn <=? len images) with true by (symmetry; apply Z.leb_le; nia).
    simpl. do 3 f_equal. lia.
Qed.

Lemma batchProcess_unguarded (images : Images) (opt : SyncOption) :
  BatchSize opt <= 0 \/ BatchNumber opt <= 0 \/ len images <= BatchSize opt ->
  batchProcess images opt = Some images.
Proof.
  intros H. unfold batchProcess.
  destruct (Z.ltb_spec 0 (BatchSize opt)); [|reflexivity].
  destruct (Z.ltb_spec 0 (BatchNumber opt)); [|reflexivity].
  destruct (Z.ltb_spec (BatchSize opt) (len images)); [lia|reflexivity].
Qed.

Lemma batchProcess_total (images : Images) (opt : SyncOption) :
  len images <= GoInt.int_max -> exists out, batchProcess images opt = Some out.
Proof.
  intros Hmax.
  destruct (decide (BatchSize opt <= 0 \/ BatchNumber opt <= 0
                    \/ len images <= BatchSize opt)) as [Hid|Hgo].
  - rewrite batchProcess_unguarded by assumption. eauto.
  - rewrite batchProcess_guarded by lia. eauto.
Qed.

(** C1. For every image list and options, [batchProcess] returns its
    input unchanged when [batchSize <= 0], [batchNumber <= 0] or
    [len(images) <= batchSize]; otherwise, with [n = len(images) /
    batchSize], it returns the suffix from index [batchSize*(n-1)] when
    [batchNumber >= n] and the half-open slice from [batchSize*(batchNumber-1)]
    to [batchSize*batchNumber] otherwise: it computes [Partition], the
    partitioner as the specification words it.  (The length of a Go slice
    is an [int].) *)
Theorem batchProcess_is_Partition (images : Images) (opt : SyncOption) :
  len images <= GoInt.int_max ->
  batchProcess images opt = Some (Partition images (BatchSize opt) (BatchNumber opt)).
Proof.
  intros Hmax. unfold Partition.
  destruct (decide (BatchSize opt <= 0 \/ BatchNumber opt <= 0
                    \/ len images <= BatchSize opt)) as [Hid|Hgo].
  - apply batchProcess_unguarded, Hid.
  - rewrite batchProcess_guarded by lia. f_equal.
    destruct (decide (len images / BatchSize opt <= BatchNumber opt)).
    + rewrite decide_True by lia. reflexivity.
    + rewrite decide_False by lia. do 2 f_equal. lia.
Qed.

Lemma batchProcess_is_Partition_witness :
  len abc <= GoInt.int_max /\
  batchProcess abc (batchOpt 2 2) = Some (Partition abc 2 2).
Proof.
  split; [vm_compute; discriminate|].
  apply (batchProcess_is_Partition abc (batchOpt 2 2)). vm_compute. discriminate.
Defined.

(** C3 as stated does not hold: for [a:1, b:1, c:1] with batch size 2
    and batch number 2 the result is not the one-element list [c:1]. *)
Lemma batch_abc_2_2_not_c :
  batchProcess abc (batchOpt 2 2) <> Some [tagged "c" "1"].
Proof. vm_compute. discriminate. Qed.

(** C3, amended. For [a:1, b:1, c:1] with batch size 2 and batch number
    2, [n = 3 / 2 = 1], the batch number is at least [n], the start index
    is [2 * (1 - 1) = 0] and [batchProcess] returns the whole list. *)
Theorem batch_abc_2_2_whole :
  GoInt.div (len abc) 2 = Some 1 /\
  GoInt.mul 2 (GoInt.sub 1 1) = 0 /\
  batchProcess abc (batchOpt 2 2) = Some abc.
Proof. repeat split. Qed.

(** C10. For every image list and all values of the batch size and
    number, the slice expression on the branch [batchProcess] takes is in
    bounds, [0 <= start <= len(images)] for the open one and
    [0 <= start <= end <= len(images)] for the closed one, the division
    has a divisor other than zero, and [batchProcess] returns a list. *)
Theorem batchProcess_in_bounds (images : Images) (opt : SyncOption) :
  len images <= GoInt.int_max ->
  (exists out, batchProcess images opt = Some out) /\
  (0 < BatchSize opt -> 0 < BatchNumber opt -> BatchSize opt < len images ->
   exists n, GoInt.div (len images) (BatchSize opt) = Some n /\
     if n <=? BatchNumber opt
     then 0 <= GoInt.mul (BatchSize opt) (GoInt.sub n 1) <= len images
     else 0 <= GoInt.mul (BatchSize opt) (GoInt.sub (BatchNumber opt) 1)
            <= GoInt.mul (BatchSize opt) (BatchNumber opt)
          /\ GoInt.mul (BatchSize opt) (BatchNumber opt) <= len images).
Proof.
  intros Hmax. split.
  - apply batchProcess_total, Hmax.
  - intros Hbs Hbn HL.
    destruct (batch_count_bounds _ _ Hbs HL Hmax) as (Hdiv & Hn1 & HnL).
    eexists. split; [exact Hdiv|].
    set (n := len images / BatchSize opt) in *. clearbody n.
    destruct (Z.leb_spec n (BatchNumber opt)) as [H|H].
    + destruct (mul_sub_exact _ _ _ Hbs Hn1 HnL Hmax) as [-> _].
      clear -Hbs Hn1 HnL. nia.
    + assert (Hk : BatchSize opt * BatchNumber opt <= len images).
      { etransitivity; [|exact HnL].
        apply Z.mul_le_mono_nonneg_l; [clear -Hbs | clear -H]; lia. }
      destruct (mul_sub_exact (len images) (BatchSize opt) (BatchNumber opt)
                  Hbs ltac:(lia) Hk Hmax) as [-> ->].
      clear -Hbs Hbn Hk. repeat split; [nia | nia | exact Hk].
Qed.

Lemma batchProcess_in_bounds_witness :
  exists out, batchProcess (abc ++ abc) (batchOpt 2 9) = Some out.
Proof.
  apply (batchProcess_in_bounds (abc ++ abc) (batchOpt 2 9)).
  vm_compute. discriminate.
Defined.

(** ** Segments of a list *)

Lemma segment_app {A} (s : list A) (a b c : nat) :
  (a <= b <= c)%nat -> segment s a b ++ segment s b c = segment s a c.
Proof.
  intros [Hab Hbc]. unfold segment.
  replace (drop b s) with (drop (b - a) (drop a s))
    by (rewrite drop_drop; f_equal; lia).
  rewrite take_take_drop. f_equal. lia.
Qed.

Lemma segment_full {A} (s : list A) : segment s 0 (length s) = s.
Proof. unfold segment. rewrite drop_0, Nat.sub_0_r. apply firstn_all. Qed.

Lemma segment_to_end {A} (s : list A) (a : nat) :
  drop a s = segment s a (length s).
Proof.
  unfold segment. symmetry. apply take_ge. rewrite length_drop. lia.
Qed.

Lemma segment_width {A} (s : list A) (a b : nat) :
  take b (drop a s) = segment s a (a + b).
Proof. unfold segment. f_equal. lia. Qed.

(** Five consecutive segments make up the list. *)
Lemma segment_split5 {A} (s : list A) (a b c d : nat) :
  (a <= b)%nat -> (b <= c)%nat -> (c <= d)%nat -> (d <= length s)%nat ->
  s = segment s 0 a ++ segment s a b ++ segment s b c ++ segment s c d
      ++ segment s d (length s).
Proof.
  intros Hab Hbc Hcd Hd.
  rewrite (segment_app s c d (length s)) by lia.
  rewrite (segment_app s b c (length s)) by lia.
  rewrite (segment_app s a b (length s)) by lia.
  rewrite (segment_app s 0 a (length s)) by lia.
  symmetry. apply segment_full.
Qed.

Lemma concat_segments {A} (s : list A) (b m : nat) :
  concat (map (fun k : nat => segment s (b * (k - 1)) (b * k)) (seq 1 m))
  = segment s 0 (b * m).
Proof.
  induction m as [|m IH].
  - simpl. unfold segment. rewrite Nat.mul_0_r. reflexivity.
  - rewrite seq_S, map_app, concat_app, IH. simpl. rewrite app_nil_r.
    replace (m - 0)%nat with m by lia.
    apply segment_app. lia.
Qed.

Lemma mapM_option_map {A B} (f : A -> option B) (g : A -> B) (l : list A) :
  (forall x, In x l -> f x = Some (g x)) -> mapM f l = Some (map g l).
Proof.
  induction l as [|x l IH]; intros H; [reflexivity|].
  simpl. rewrite (H x) by (left; reflexivity). simpl.
  rewrite IH by (intros y Hy; apply H; right; exact Hy). reflexivity.
Qed.

(** ** The batches as segments *)

Section Batches.

Variables (images : Images) (opt : SyncOption).
Hypothesis Hsize : 0 < BatchSize opt.
Hypothesis Hmany : BatchSize opt < len images.
Hypothesis Hmax : len images <= GoInt.int_max.

Let b : nat := Z.to_nat (BatchSize opt).
Let N : nat := Z.to_nat (len images / BatchSize opt).

Lemma batch_count_nat : (1 <= N)%nat /\ (b * N <= length images)%nat /\ (1 <= b)%nat.
Proof.
  destruct (batch_count_bounds _ _ Hsize Hmany Hmax) as (_ & Hn1 & HnL).
  subst b N. set (n := len images / BatchSize opt) in *. clearbody n.
  unfold len in *. nia.
Qed.

(** Batch [k >= 1]: the last segment from [N] on, a segment of [b]
    elements before. *)
Lemma batch_segment (k : nat) :
  (1 <= k)%nat ->
  batchProcess images (setBatchNumber opt (Z.of_nat k))
  = Some (if decide (N <= k)%nat
          then segment images (b * (N - 1)) (length images)
          else segment images (b * (k - 1)) (b * k)).
Proof.
  intros Hk.
  destruct (batch_count_bounds _ _ Hsize Hmany Hmax) as (_ & Hn1 & HnL).
  rewrite batchProcess_guarded; simpl; try assumption; [|lia].
  f_equal. subst b N. set (n := len images / BatchSize opt) in *. clearbody n.
  destruct (decide (n <= Z.of_nat k)).
  - rewrite decide_True by lia. rewrite segment_to_end. f_equal.
    rewrite Z2Nat.inj_mul, Z2Nat.inj_sub by lia. reflexivity.
  - rewrite decide_False by lia. rewrite segment_width. f_equal.
    + rewrite Z2Nat.inj_mul, Z2Nat.inj_sub, Nat2Z.id by lia. reflexivity.
    + rewrite Z2Nat.inj_mul, Z2Nat.inj_sub, Nat2Z.id by lia.
      change (Z.to_nat 1) with 1%nat. nia.
Qed.

Lemma batch_nonpositive (bn : Z) :
  bn <= 0 -> batchProcess images (setBatchNumber opt bn) = Some images.
Proof. intros H. apply batchProcess_unguarded. simpl. lia. Qed.

Lemma allBatches_segments :
  allBatches images opt (len images / BatchSize opt)
  = Some (map (fun k : nat => segment images (b * (k - 1)) (b * k)) (seq 1 (N - 1))
          ++ [segment images (b * (N - 1)) (length images)]).
Proof.
  destruct batch_count_nat as (HN & _ & _).
  unfold allBatches. fold N.
  replace N with (N - 1 + 1)%nat at 1 by lia.
  rewrite seq_app. simpl.
  replace (S (N - 1)) with N by lia.
  set (g := fun k : nat => if decide (N <= k)%nat
                           then segment images (b * (N - 1)) (length images)
                           else segment images (b * (k - 1)) (b * k)).
  rewrite (mapM_option_map _ g).
  - f_equal. rewrite map_app. f_equal.
    + apply map_ext_in. intros k Hk. apply in_seq in Hk.
      unfold g. rewrite decide_False by lia. reflexivity.
    + simpl. unfold g. rewrite decide_True by lia. reflexivity.
  - intros k Hk. apply in_app_or in Hk. unfold g.
    destruct Hk as [Hk|[<-|[]]].
    + apply in_seq in Hk. apply batch_segment. lia.
    + apply batch_segment. lia.
Qed.

End Batches.

(** Bounds of segments: arithmetic over the order facts at hand only. *)
Ltac seg_arith :=
  repeat match goal with
         | H : ?T |- _ =>
             lazymatch T with
             | (_ <= _)%nat => fail
             | (_ < _)%nat => fail
             | _ => clear H
             end
         end;
  nia.

(** C2. For every image list and batch size [> 0] below the length of
    the list: every result of [batchProcess] is a run of consecutive
    elements of the input, in their order; the batches numbered 1 to
    [n = len(images) / batchSize], put one after the other, are the input
    itself (nothing left out, nothing twice); two of them with different
    numbers lie in different places of the input, the lower-numbered one
    first; and the last has the [batchSize] elements of a batch and the
    remainder [len(images) mod batchSize] besides. *)
Theorem batches_partition_input (images : Images) (opt : SyncOption) :
  0 < BatchSize opt -> BatchSize opt < len images ->
  len images <= GoInt.int_max ->
  let n := len images / BatchSize opt in
  (forall bn : Z, exists pre out post,
      batchProcess images (setBatchNumber opt bn) = Some out /\
      images = pre ++ out ++ post) /\
  (exists parts, allBatches images opt n = Some parts /\ concat parts = images) /\
  (forall j k : Z, 1 <= j -> j < k -> k <= n ->
      exists pre bj mid bk post,
        batchProcess images (setBatchNumber opt j) = Some bj /\
        batchProcess images (setBatchNumber opt k) = Some bk /\
        images = pre ++ bj ++ mid ++ bk ++ post) /\
  (exists last, batchProcess images (setBatchNumber opt n) = Some last /\
      len last = BatchSize opt + len images mod BatchSize opt).
Proof.
  intros Hsize Hmany Hmax n.
  pose proof (batch_count_nat images opt Hsize Hmany Hmax) as (HN & HbN & Hb).
  pose proof (batch_count_bounds _ _ Hsize Hmany Hmax) as (_ & Hn1 & HnL).
  assert (HNn : n = Z.of_nat (Z.to_nat (len images / BatchSize opt)))
    by (subst n; lia).
  pose proof (Z.div_mod (len images) (BatchSize opt) ltac:(lia)) as Hdm.
  fold n in Hdm, HnL, Hn1.
  remember (Z.to_nat (BatchSize opt)) as b eqn:Eb.
  remember (Z.to_nat (len images / BatchSize opt)) as N eqn:EN.
  assert (Hmono : forall x y : nat, (x <= y)%nat -> (b * x <= b * y)%nat)
    by (intros; nia).
  repeat split.
  - intros bn. destruct (Z.le_gt_cases bn 0) as [Hbn|Hbn].
    + exists [], images, []. rewrite app_nil_r.
      split; [apply batch_nonpositive, Hbn | reflexivity].
    + replace bn with (Z.of_nat (Z.to_nat bn)) by lia.
      rewrite batch_segment by (assumption || lia). rewrite <- ?Eb, <- ?EN.
      assert (HK : (1 <= Z.to_nat bn)%nat) by lia.
      remember (Z.to_nat bn) as K eqn:EK.
      clear Eb EN Hdm HnL HNn Hn1 Hmany Hmax Hsize EK.
      destruct (decide (N <= K)%nat).
      * exists (segment images 0 (b * (N - 1))), (segment images (b * (N - 1)) (length images)), [].
        split; [reflexivity|].
        assert (b * (N - 1) <= b * N)%nat by (apply Hmono; lia).
        rewrite app_nil_r, segment_app by seg_arith.
        symmetry. apply segment_full.
      * exists (segment images 0 (b * (K - 1))),
               (segment images (b * (K - 1)) (b * K)),
               (segment images (b * K) (length images)).
        split; [reflexivity|].
        assert (b * K <= b * N)%nat by (apply Hmono; lia).
        assert (b * (K - 1) <= b * K)%nat by (apply Hmono; lia).
        rewrite (segment_app images (b * (K - 1))) by seg_arith.
        rewrite segment_app by seg_arith. symmetry. apply segment_full.
  - eexists. split; [subst n; apply allBatches_segments; assumption|].
    rewrite <- ?Eb, <- ?EN.
    rewrite concat_app, concat_segments. simpl. rewrite app_nil_r.
    assert (b * (N - 1) <= b * N)%nat by (apply Hmono; lia).
    clear Eb EN Hdm HnL HNn Hn1 Hmany Hmax Hsize.
    rewrite segment_app by seg_arith. apply segment_full.
  - intros j k Hj Hjk Hk.
    replace j with (Z.of_nat (Z.to_nat j)) by lia.
    replace k with (Z.of_nat (Z.to_nat k)) by lia.
    rewrite !batch_segment by (assumption || lia). rewrite <- ?Eb, <- ?EN.
    assert (HJK : (1 <= Z.to_nat j /\ Z.to_nat j < Z.to_nat k /\ Z.to_nat k <= N)%nat)
      by lia.
    remember (Z.to_nat j) as J eqn:EJ. remember (Z.to_nat k) as K eqn:EK.
    clear Eb EN Hdm HnL HNn Hn1 Hmany Hmax Hsize EJ EK.
    rewrite (decide_False (P := (N <= J)%nat)) by lia.
    assert (b * (J - 1) <= b * J)%nat by (apply Hmono; lia).
    assert (b * J <= b * (K - 1))%nat by (apply Hmono; lia).
    assert (b * (K - 1) <= b * K)%nat by (apply Hmono; lia).
    assert (b * K <= b * N)%nat by (apply Hmono; lia).
    destruct (decide (N <= K)%nat).
    + assert (K = N) as -> by lia.
      exists (segment images 0 (b * (J - 1))), (segment images (b * (J - 1)) (b * J)),
        (segment images (b * J) (b * (N - 1))),
        (segment images (b * (N - 1)) (length images)), [].
      do 2 (split; [reflexivity|]). rewrite app_nil_r.
      rewrite (segment_app images (b * J)) by seg_arith.
      rewrite (segment_app images (b * (J - 1))) by seg_arith.
      rewrite segment_app by seg_arith. symmetry. apply segment_full.
    + exists (segment images 0 (b * (J - 1))), (segment images (b * (J - 1)) (b * J)),
        (segment images (b * J) (b * (K - 1))),
        (segment images (b * (K - 1)) (b * K)),
        (segment images (b * K) (length images)).
      do 2 (split; [reflexivity|]).
      apply segment_split5; seg_arith.
  - exists (segment images (b * (N - 1)) (length images)). split.
    + rewrite HNn. subst N. rewrite batch_segment by (assumption || lia). rewrite <- ?Eb, <- ?EN.
      rewrite decide_True by lia. reflexivity.
    + unfold segment, len. rewrite length_take, length_drop.
      unfold len in Hdm, HnL |- *.
      set (r := Z.of_nat (length images) mod BatchSize opt) in *. clearbody r.
      assert (Hlo : (b * (N - 1) <= length images)%nat)
        by (specialize (Hmono (N - 1)%nat N ltac:(lia)); seg_arith).
      rewrite Nat.min_id, Nat2Z.inj_sub by exact Hlo.
      rewrite Nat2Z.inj_mul, Nat2Z.inj_sub by exact HN.
      rewrite <- HNn, Hdm. replace (Z.of_nat b) with (BatchSize opt) by lia.
      change (Z.of_nat 1) with 1. ring.
Qed.

Lemma batches_partition_input_witness :
  exists parts, allBatches (abc ++ abc ++ abc) (batchOpt 2 0) 4 = Some parts /\
                concat parts = abc ++ abc ++ abc.
Proof.
  apply (batches_partition_input (abc ++ abc ++ abc) (batchOpt 2 0));
    vm_compute; (reflexivity || discriminate).
Defined.

(** ** The orchestrator: what a computation adds to the trace *)

Section OrchestratorFacts.

Context {Manifest MList Any : Type}.
Variable ext : @Externals Manifest MList Any.

Local Abbreviation idW := (@id (@World Any)).
Local Abbreviation World := (@World Any).

Lemma St_bind_eq {S A B} (c : St S A) (k : A -> St S B) (s : S) :
  (c ≫= k) s = k (fst (c s)) (snd (c s)).
Proof. reflexivity. Qed.

Lemma runs_ret {S A} (proj : S -> World) P (a : A) : runs proj P (mret a : St S A).
Proof. intros s. exists []. simpl. rewrite app_nil_r. auto. Qed.

Lemma runs_bind {S A B} (proj : S -> World) P (c : St S A) (k : A -> St S B) :
  runs proj P c -> (forall a, runs proj P (k a)) -> runs proj P (c ≫= k).
Proof.
  intros Hc Hk s. rewrite St_bind_eq.
  destruct (Hc s) as (e1 & T1 & P1 & M1 & F1).
  destruct (Hk (fst (c s)) (snd (c s))) as (e2 & T2 & P2 & M2 & F2).
  exists (e1 ++ e2). repeat split.
  - rewrite T2, T1, app_assoc. reflexivity.
  - rewrite forallb_app, P1, P2. reflexivity.
  - rewrite M2, M1. reflexivity.
  - rewrite existsb_app. intros H. apply orb_false_elim in H as [H1 H2].
    rewrite F2, F1 by assumption. reflexivity.
Qed.

Lemma runs_weaken {S A} (proj : S -> World) (P Q : Event -> bool) (c : St S A) :
  (forall e, P e = true -> Q e = true) -> runs proj P c -> runs proj Q c.
Proof.
  intros HPQ Hc s. destruct (Hc s) as (evs & T & HP & M & F).
  exists evs. repeat split; try assumption.
  rewrite forallb_forall in *. auto.
Qed.

Lemma runs_emit P (e : Event) : P e = true -> runs idW P (emit e).
Proof.
  intros HP w. exists [e]. simpl. rewrite HP. repeat split. 
Qed.

Lemma runs_when_err P (e : option error) (k : error -> St World unit) :
  (forall err, runs idW P (k err)) -> runs idW P (when_err e k).
Proof. destruct e; simpl; [auto | intros; apply runs_ret]. Qed.

Lemma runs_retry_loop {S} (proj : S -> World) P (fn : St S (option error))
  (count : nat) (err : option error) :
  runs proj P fn -> runs proj P (retry_loop count fn err).
Proof.
  intros Hfn. revert err. induction count as [|n IH]; intros err; simpl.
  - apply runs_ret.
  - apply runs_bind; [exact Hfn|]. intros [e|]; [apply IH | apply runs_ret].
Qed.

Lemma runs_retry {S} (proj : S -> World) P (fn : St S (option error))
  (count interval : Z) :
  runs proj P fn -> runs proj P (retry count interval fn).
Proof. apply runs_retry_loop. Qed.

(** The events of a computation are what [runs] speaks of. *)
Lemma runs_eventsOf {A} P (c : St World A) (w : World) :
  runs idW P c ->
  trace (snd (c w)) = trace w ++ eventsOf c w /\
  forallb P (eventsOf c w) = true /\
  manifestsMap (snd (c w)) = manifestsMap w /\
  (existsb isWrite (eventsOf c w) = false -> files (snd (c w)) = files w).
Proof.
  intros Hc. destruct (Hc w) as (evs & T & HP & M & F). simpl in *.
  assert (E : eventsOf c w = evs).
  { unfold eventsOf. rewrite T, drop_app_length. reflexivity. }
  rewrite E. auto.
Qed.


Lemma runs_nextSyncCall P : runs idW P (nextSyncCall).
Proof. intros w. exists []. simpl. rewrite app_nil_r. auto. Qed.

Lemma runs_nextFsCall P : runs idW P (nextFsCall).
Proof. intros w. exists []. simpl. rewrite app_nil_r. auto. Qed.

Lemma runs_attempt (image : Image) :
  runs snd isFetch (checkSync_attempt ext image).
Proof.
  intros [v w]. exists [EvGetImageManifest (Image_String image)].
  unfold checkSync_attempt, getImageManifest_call.
  destruct (getImageManifest ext (Image_String image) (fetchCalls w)) as [[m l] merr].
  simpl. auto.
Qed.

(** [checkSync] adds fetch attempts to the trace and, when it returns
    [needSync = false], the line saying why. *)
Lemma checkSync_trace (image : Image) (w : World) :
  exists evs : list Event,
    trace (snd (checkSync ext image w)) = trace w ++ evs /\
    manifestsMap (snd (checkSync ext image w)) = manifestsMap w /\
    files (snd (checkSync ext image w)) = files w /\
    forallb isCheck evs = true /\
    (snd (fst (checkSync ext image w)) = true -> forallb isFetch evs = true).
Proof.
  unfold checkSync.
  pose proof (runs_retry snd isFetch _ (DefaultGoRequestRetry ext)
                (DefaultGoRequestRetryTime ext) (runs_attempt image)
                (mkCheckSyncVars None None None, w)) as (evs & T & HP & M & F).
  destruct (retry _ _ _ _) as [err [vars w1]]. simpl in T, M, F.
  assert (HW : existsb isWrite evs = false).
  { clear -HP. induction evs as [|e evs IH]; [reflexivity|]. simpl in *.
    apply andb_prop in HP as [He HP]. rewrite IH by assumption.
    destruct e; simpl in *; congruence. }
  specialize (F HW).
  assert (HC : forallb isCheck evs = true).
  { rewrite forallb_forall in *. intros e He. unfold isCheck.
    rewrite (HP e He). reflexivity. }
  assert (Hlog : forall line, isCheck (EvLog line) = true ->
            exists evs' : list Event,
              trace w1 ++ [EvLog line] = trace w ++ evs' /\
              manifestsMap w1 = manifestsMap w /\ files w1 = files w /\
              forallb isCheck evs' = true /\
              (false = true -> forallb isFetch evs' = true)).
  { intros line Hline. exists (evs ++ [EvLog line]).
    rewrite T, app_assoc, forallb_app, HC. simpl. rewrite Hline.
    repeat split; (assumption || discriminate). }
  destruct err as [e|].
  - apply Hlog. reflexivity.
  - destruct (manifestsMap w1 !! Image_String image) as [val|].
    + destruct (_ || _).
      * apply Hlog. reflexivity.
      * exists evs. simpl. auto.
    + exists evs. simpl. auto.
Qed.

(** *** The retried fetch of checkSync *)

Lemma fetched_fetched (w : World) (name : string) (j k : nat) :
  fetched (fetched w name j) name k = fetched w name (j + k).
Proof.
  unfold fetched. simpl. f_equal.
  - rewrite <- app_assoc, <- replicate_add. reflexivity.
  - lia.
Qed.

Lemma attempt_step (image : Image) (v : checkSyncVars) (w : World) :
  checkSync_attempt ext image (v, w)
  = (snd (getImageManifest ext (Image_String image) (fetchCalls w)),
     (mkCheckSyncVars
        (fst (fst (getImageManifest ext (Image_String image) (fetchCalls w))))
        (snd (fst (getImageManifest ext (Image_String image) (fetchCalls w))))
        (snd (getImageManifest ext (Image_String image) (fetchCalls w))),
      fetched w (Image_String image) 1)).
Proof.
  unfold checkSync_attempt, getImageManifest_call, fetched.
  destruct (getImageManifest ext (Image_String image) (fetchCalls w)) as [[m l] merr].
  simpl. rewrite Nat.add_1_r. reflexivity.
Qed.

Lemma fetchFails_shift (name : string) (w : World) (j i : nat) :
  fetchFails ext name (fetched w name j) i <-> fetchFails ext name w (j + i).
Proof. unfold fetchFails, fetched. simpl. rewrite Nat.add_assoc. reflexivity. Qed.

(** Every attempt failing, the loop makes them all and ends on an error. *)
Lemma attempts_all_fail (image : Image) (count : nat) :
  forall (w : World) (v : checkSyncVars) (err : option error),
    (forall i, (i < count)%nat -> fetchFails ext (Image_String image) w i) ->
    exists v' err',
      retry_loop count (checkSync_attempt ext image) err (v, w)
      = (err', (v', fetched w (Image_String image) count)) /\
      ((0 < count)%nat -> err' <> None).
Proof.
  induction count as [|n IH]; intros w v err Hfail.
  - exists v, err. simpl. split; [|lia].
    unfold mret, St_ret, fetched. simpl. rewrite app_nil_r, Nat.add_0_r.
    destruct w; reflexivity.
  - simpl. rewrite St_bind_eq, attempt_step. simpl.
    pose proof (Hfail 0%nat ltac:(lia)) as H0. unfold fetchFails in H0.
    rewrite Nat.add_0_r in H0.
    destruct (snd (getImageManifest ext (Image_String image) (fetchCalls w)))
      as [e|] eqn:E; [|congruence].
    destruct (IH (fetched w (Image_String image) 1)
                 (mkCheckSyncVars
                    (fst (fst (getImageManifest ext (Image_String image) (fetchCalls w))))
                    (snd (fst (getImageManifest ext (Image_String image) (fetchCalls w))))
                    (Some e)) (Some e))
      as (v' & err' & Hrun & Herr).
    { intros i Hi. apply fetchFails_shift. apply Hfail. lia. }
    exists v', err'. rewrite Hrun, fetched_fetched. split; [reflexivity|].
    intros _. destruct n as [|n]; [|apply Herr; lia].
    simpl in Hrun. unfold mret, St_ret in Hrun. congruence.
Qed.

(** The attempt numbered [k] being the first to succeed, within the
    budget, the loop ends there with what it returned. *)
Lemma attempts_succeed_at (image : Image) (k : nat) :
  forall (count : nat) (w : World) (v : checkSyncVars) (err : option error)
         (m : option Manifest) (l : option MList),
    (k < count)%nat ->
    (forall i, (i < k)%nat -> fetchFails ext (Image_String image) w i) ->
    getImageManifest ext (Image_String image) (fetchCalls w + k) = (m, l, None) ->
    retry_loop count (checkSync_attempt ext image) err (v, w)
    = (None, (mkCheckSyncVars m l None, fetched w (Image_String image) (S k))).
Proof.
  induction k as [|k IH]; intros count w v err m l Hk Hfail Hok;
    (destruct count as [|n]; [lia|]); simpl; rewrite St_bind_eq, attempt_step.
  - rewrite Nat.add_0_r in Hok. rewrite Hok. reflexivity.
  - pose proof (Hfail 0%nat ltac:(lia)) as H0. unfold fetchFails in H0.
    rewrite Nat.add_0_r in H0. simpl.
    destruct (snd (getImageManifest ext (Image_String image) (fetchCalls w)))
      as [e|] eqn:E; [|congruence].
    rewrite (IH n _ _ _ m l); [rewrite fetched_fetched; reflexivity|lia| |].
    + intros i Hi. apply fetchFails_shift. apply Hfail. lia.
    + unfold fetched. simpl. rewrite <- Hok. f_equal. lia.
Qed.

(** *** checkSync *)

Lemma deepEqualManifest_true (m : option Manifest) (val : Any) :
  bool_decide (m <> None) && deepEqualManifest ext m val = true <->
  exists x, m = Some x /\ DeepEqual ext (ifaceManifest ext x) val = true.
Proof.
  destruct m as [x|]; cbn -[bool_decide].
  - rewrite bool_decide_true by discriminate. simpl. split.
    + intros H. exists x. auto.
    + intros (y & [= <-] & H). exact H.
  - split; [rewrite andb_false_r; discriminate | intros (y & [=] & _)].
Qed.

Lemma deepEqualList_true (l : option MList) (val : Any) :
  bool_decide (l <> None) && deepEqualList ext l val = true <->
  exists y, l = Some y /\ DeepEqual ext (ifaceList ext y) val = true.
Proof.
  destruct l as [y|]; cbn -[bool_decide].
  - rewrite bool_decide_true by discriminate. simpl. split.
    + intros H. exists y. auto.
    + intros (z & [= <-] & H). exact H.
  - split; [rewrite andb_false_r; discriminate | intros (z & [=] & _)].
Qed.

(** C4. For every image whose manifest fetch succeeds (some attempt
    within the retry budget returns no error, the ones before it having
    failed), [checkSync] returns [needSync = false] exactly when
    [manifestsMap] holds a value under the image's string key that
    [reflect.DeepEqual] finds equal to the manifest fetched or to the
    manifest list fetched; in every other such case [needSync] is true,
    and the manifest and list fetched are returned with it. *)
Theorem checkSync_skips_iff_cached_equal (image : Image) (w : World) (k : nat)
  (m : option Manifest) (l : option MList) :
  (k < Z.to_nat (DefaultGoRequestRetry ext))%nat ->
  (forall i, (i < k)%nat -> fetchFails ext (Image_String image) w i) ->
  getImageManifest ext (Image_String image) (fetchCalls w + k) = (m, l, None) ->
  exists m' l' needSync w',
    checkSync ext image w = (m', l', needSync, w') /\
    (needSync = false <->
     exists val, manifestsMap w !! Image_String image = Some val /\
       ((exists x, m = Some x /\ DeepEqual ext (ifaceManifest ext x) val = true) \/
        (exists y, l = Some y /\ DeepEqual ext (ifaceList ext y) val = true))) /\
    (needSync = true -> m' = m /\ l' = l) /\
    manifestsMap w' = manifestsMap w.
Proof.
  intros Hk Hfail Hok. unfold checkSync, retry.
  rewrite (attempts_succeed_at image k _ w _ None m l Hk Hfail Hok). simpl.
  destruct (manifestsMap w !! Image_String image) as [val|] eqn:Hval.
  - destruct (bool_decide (m <> None) && deepEqualManifest ext m val
              || bool_decide (l <> None) && deepEqualList ext l val) eqn:Heq.
    + do 4 eexists. split; [reflexivity|]. simpl. repeat split; try discriminate.
      intros _. exists val. split; [reflexivity|].
      apply orb_true_iff in Heq as [H|H].
      * left. apply deepEqualManifest_true, H.
      * right. apply deepEqualList_true, H.
    + do 4 eexists. split; [reflexivity|]. simpl. repeat split; try discriminate.
      intros (val' & [= <-] & H). apply orb_false_elim in Heq as [H1 H2].
      destruct H as [H|H].
      * apply deepEqualManifest_true in H. congruence.
      * apply deepEqualList_true in H. congruence.
  - do 4 eexists. split; [reflexivity|]. simpl. repeat split; try discriminate.
    intros (val & [=] & _).
Qed.


(** *** The task when the fetch fails for good *)

Lemma eventsOf_from_trace {A} (c : St World A) (w : World) (evs : list Event) :
  trace (snd (c w)) = trace w ++ evs -> eventsOf c w = evs.
Proof. intros T. unfold eventsOf. rewrite T, drop_app_length. reflexivity. Qed.

Lemma existsb_replicate_false {A} (f : A -> bool) (x : A) (n : nat) :
  f x = false -> existsb f (replicate n x) = false.
Proof. intros H. induction n; simpl; [reflexivity | rewrite H; assumption]. Qed.

(** C5. For every image whose manifest fetch fails on every attempt of
    the retry budget, the task logs the fetch failure and stops there:
    its events are the fetch attempts and that log line, so its outcome
    is FailedFetch; [sync2DockerHub] is not called (no line of it, no
    copy); and the entry of the image in [manifestsMap], like all of the
    map and the files written so far, is as before. *)
Theorem failed_fetch_stops_task (image : Image) (opt : SyncOption) (w : World) :
  ctxDone ext image = false ->
  0 < DefaultGoRequestRetry ext ->
  (forall i, (i < Z.to_nat (DefaultGoRequestRetry ext))%nat ->
             fetchFails ext (Image_String image) w i) ->
  exists err : error,
    eventsOf (syncTask ext image opt) w
    = EvLog (LogProcess (Image_String image))
      :: replicate (Z.to_nat (DefaultGoRequestRetry ext))
                   (EvGetImageManifest (Image_String image))
      ++ [EvLog (LogFetchFailed (Image_String image) err)] /\
    outcomeOf (eventsOf (syncTask ext image opt) w) = Some FailedFetch /\
    existsb isSyncing (eventsOf (syncTask ext image opt) w) = false /\
    syncCalls (snd (syncTask ext image opt w)) = syncCalls w /\
    manifestsMap (snd (syncTask ext image opt w)) !! Image_String image
    = manifestsMap w !! Image_String image /\
    manifestsMap (snd (syncTask ext image opt w)) = manifestsMap w /\
    files (snd (syncTask ext image opt w)) = files w.
Proof.
  intros Hctx Hbudget Hfail.
  set (name := Image_String image) in *.
  set (count := Z.to_nat (DefaultGoRequestRetry ext)) in *.
  set (w0 := snd (logLine (LogProcess name) w)).
  destruct (attempts_all_fail image count w0 (mkCheckSyncVars None None None) None)
    as (v' & err' & Hrun & Herr).
  { intros i Hi. exact (Hfail i Hi). }
  destruct err' as [err|]; [|exfalso; apply Herr; [lia | reflexivity]].
  exists err.
  assert (Hcheck : checkSync ext image w0
            = (None, None, false,
               snd (logLine (LogFetchFailed name err) (fetched w0 name count)))).
  { unfold checkSync, retry. fold count name. rewrite Hrun. reflexivity. }
  assert (Htask : syncTask ext image opt w
            = (tt, snd (logLine (LogFetchFailed name err) (fetched w0 name count)))).
  { unfold syncTask. rewrite Hctx, St_bind_eq. fold name w0.
    rewrite St_bind_eq, Hcheck. reflexivity. }
  assert (Hev : eventsOf (syncTask ext image opt) w
            = EvLog (LogProcess name)
              :: replicate count (EvGetImageManifest name)
              ++ [EvLog (LogFetchFailed name err)]).
  { apply eventsOf_from_trace. rewrite Htask. simpl.
    rewrite <- !app_assoc. reflexivity. }
  rewrite Hev, Htask. simpl. repeat split.
  - unfold outcomeOf. simpl. rewrite existsb_app. simpl.
    rewrite orb_true_r. reflexivity.
  - rewrite existsb_app, existsb_replicate_false by reflexivity. reflexivity.
Qed.


(** *** sync2DockerHub and the storage step *)

Lemma runs_sync2DockerHub (image : Image) (opt : SyncOption) :
  runs idW isSyncing (sync2DockerHub ext image opt).
Proof.
  unfold sync2DockerHub. destruct (OnlyDownloadManifests opt); [apply runs_ret|].
  apply runs_bind; [apply runs_emit; reflexivity|]. intros _.
  apply runs_bind; [apply runs_nextSyncCall|]. intros k.
  destruct (NewPolicyContext ext k); [apply runs_ret|].
  destruct (ParseReference ext _); [apply runs_ret|].
  destruct (ParseReference ext _); [apply runs_ret|].
  apply runs_bind; [apply runs_emit; reflexivity|]. intros _. apply runs_ret.
Qed.

Lemma sync2DockerHub_manifests_only (image : Image) (opt : SyncOption) (w : World) :
  OnlyDownloadManifests opt = true -> sync2DockerHub ext image opt w = (None, w).
Proof. intros H. unfold sync2DockerHub. rewrite H. reflexivity. Qed.

Lemma runs_sync2DockerHub_manifests_only (image : Image) (opt : SyncOption) :
  OnlyDownloadManifests opt = true ->
  runs idW noEvent (sync2DockerHub ext image opt).
Proof.
  intros H. unfold sync2DockerHub. rewrite H. apply runs_ret.
Qed.

(** The storage step: the directory is made when [os.Stat] fails on it,
    the file is written in either case, and each error is logged. *)
Lemma persistManifest_trace (image : Image) (bs : bytes) (w : World) :
  let dir := pathJoin ext [ManifestDir ext; Repo image; User image; Name image] in
  let path := pathJoin ext [dir; Tag image +:+ ".json"] in
  exists (mk : list Event) (ferr : option error),
    trace (snd (persistManifest ext image bs w))
    = trace w ++ mk ++ [EvWriteFile path bs ferr]
      ++ storageLog (Image_String image) ferr /\
    (mk = [] \/ exists merr, mk = EvMkdirAll dir merr
                                 :: storageLog (Image_String image) merr) /\
    manifestsMap (snd (persistManifest ext image bs w)) = manifestsMap w.
Proof.
  intros dir path. unfold persistManifest. cbv zeta. fold dir. fold path.
  clearbody dir path.
  unfold osMkdirAll_call, WriteFile_call, nextFsCall, storeFile, when_err,
    logLine, emit, mbind, St_bind, mret, St_ret. simpl.
  destruct (osStat ext dir (fsCalls w)) as [serr|]; simpl.
  - exists (EvMkdirAll dir (osMkdirAll ext dir (S (fsCalls w)))
            :: storageLog (Image_String image) (osMkdirAll ext dir (S (fsCalls w)))).
    exists (WriteFile ext path bs (S (S (fsCalls w)))).
    split; [|split; [right; eexists; reflexivity|]];
      destruct (osMkdirAll ext dir (S (fsCalls w))); simpl;
      destruct (WriteFile ext path bs (S (S (fsCalls w))));
      simpl; try destruct (WriteFile_written ext _ _ _); simpl;
      rewrite <- ?app_assoc; reflexivity.
  - exists [], (WriteFile ext path bs (S (fsCalls w))).
    split; [|split; [left; reflexivity|]];
      destruct (WriteFile ext path bs (S (fsCalls w)));
      simpl; try destruct (WriteFile_written ext _ _ _); simpl;
      rewrite <- ?app_assoc; reflexivity.
Qed.


(** *** The ways through the task *)

Lemma forallb_existsb_false {A} (P Q : A -> bool) (l : list A) :
  (forall x, P x = true -> Q x = false) ->
  forallb P l = true -> existsb Q l = false.
Proof.
  intros HPQ. induction l as [|x l IH]; simpl; [reflexivity|].
  intros H. apply andb_prop in H as [Hx Hl].
  rewrite (HPQ x Hx), IH by assumption. reflexivity.
Qed.

(** A loop that ends without error after at least one attempt ends on an
    attempt that returned none. *)
Lemma retry_loop_ok_last {S} (fn : St S (option error)) (count : nat) :
  forall (err : option error) (s s' : S),
    retry_loop count fn err s = (None, s') ->
    (count = 0%nat /\ err = None /\ s' = s) \/ exists s0, fn s0 = (None, s').
Proof.
  induction count as [|n IH]; intros err s s' H; simpl in H.
  - left. unfold mret, St_ret in H. injection H as -> ->. auto.
  - right. rewrite St_bind_eq in H.
    destruct (fn s) as [e s1] eqn:E. simpl in H. destruct e as [e|].
    + apply IH in H as [(_ & [=] & _)|H]. exact H.
    + unfold mret, St_ret in H. injection H as <-. exists s. exact E.
Qed.

Lemma retry_ok_last {S} (fn : St S (option error)) (count interval : Z) (s s' : S) :
  0 < count ->
  retry count interval fn s = (None, s') -> exists s0, fn s0 = (None, s').
Proof.
  intros Hc H. apply retry_loop_ok_last in H as [(H0 & _)|H]; [lia | exact H].
Qed.


Lemma isSyncing_not_write (e : Event) : isSyncing e = true -> isWrite e = false.
Proof. destruct e as [[]| | | | |]; simpl; congruence. Qed.

(** The task that is not cancelled, step by step. *)
Lemma syncTask_eq (image : Image) (opt : SyncOption) (w : World) :
  ctxDone ext image = false ->
  syncTask ext image opt w
  = let name := Image_String image in
    let r := checkSync ext image (snd (logLine (LogProcess name) w)) in
    if snd (fst r)
    then
      let mb := match fst (fst (fst r)) with
                | Some x => MarshalManifest ext x
                | None => MarshalList ext (snd (fst (fst r)))
                end in
      let w2 := snd (logLine (LogManifestBytes (fst mb))
                       (snd (when_err (snd mb)
                               (fun e => logLine (LogStorageFailed name e))
                               (snd r)))) in
      let rr := retry (defaultSyncRetry ext) (defaultSyncRetryTime ext)
                      (sync2DockerHub ext image opt) w2 in
      match fst rr with
      | Some e => logLine (LogProcessFailed name e) (snd rr)
      | None => persistManifest ext image (fst mb) (snd rr)
      end
    else (tt, snd r).
Proof.
  intros Hctx. unfold syncTask. rewrite Hctx. cbv zeta. rewrite !St_bind_eq.
  destruct (checkSync ext image _) as [[[m l] needSync] w1]. cbn [fst snd].
  destruct needSync; cbn [negb]; [|reflexivity].
  destruct (match m with
            | Some x => MarshalManifest ext x
            | None => MarshalList ext l
            end) as [bs merr]. cbn [fst snd].
  rewrite !St_bind_eq.
  destruct (fst (retry _ _ _ _)); reflexivity.
Qed.

(** The three ways through a task that is not cancelled: it stops after
    [checkSync]; the retried copy ends on an error, which is logged; the
    retried copy ends without error and the storage step follows. *)
Lemma syncTask_paths (image : Image) (opt : SyncOption) (w : World) :
  ctxDone ext image = false ->
  let name := Image_String image in
  let dir := pathJoin ext [ManifestDir ext; Repo image; User image; Name image] in
  let path := pathJoin ext [dir; Tag image +:+ ".json"] in
  let w' := snd (syncTask ext image opt w) in
  let copy := retry (defaultSyncRetry ext) (defaultSyncRetryTime ext)
                    (sync2DockerHub ext image opt) in
  manifestsMap w' = manifestsMap w /\
  ((exists evsC,
       trace w' = trace w ++ EvLog (LogProcess name) :: evsC /\
       forallb isCheck evsC = true /\
       files w' = files w /\
       snd (fst (checkSync ext image (snd (logLine (LogProcess name) w)))) = false)
   \/ (exists evsF evsM evsS e wa wb,
       trace w' = trace w ++ EvLog (LogProcess name) :: evsF ++ evsM ++ evsS
                  ++ [EvLog (LogProcessFailed name e)] /\
       forallb isFetch evsF = true /\ forallb isMarshalLog evsM = true /\
       forallb isSyncing evsS = true /\
       files w' = files w /\
       copy wa = (Some e, wb) /\
       trace wb = trace w ++ EvLog (LogProcess name) :: evsF ++ evsM ++ evsS)
   \/ (exists evsF evsM evsS mk ferr bs wa wb,
       trace w' = trace w ++ (EvLog (LogProcess name) :: evsF ++ evsM ++ evsS)
                  ++ mk ++ [EvWriteFile path bs ferr] ++ storageLog name ferr /\
       forallb isFetch evsF = true /\ forallb isMarshalLog evsM = true /\
       forallb isSyncing evsS = true /\
       (mk = [] \/ exists merr, mk = EvMkdirAll dir merr :: storageLog name merr) /\
       copy wa = (None, wb) /\
       trace wb = trace w ++ EvLog (LogProcess name) :: evsF ++ evsM ++ evsS)).
Proof.
  intros Hctx name dir path w' copy. subst w'.
  rewrite (syncTask_eq image opt w Hctx). cbv zeta. fold name copy.
  set (w0 := snd (logLine (LogProcess name) w)).
  assert (T0 : trace w0 = trace w ++ [EvLog (LogProcess name)]) by reflexivity.
  assert (M0 : manifestsMap w0 = manifestsMap w) by reflexivity.
  assert (F0 : files w0 = files w) by reflexivity.
  destruct (checkSync_trace image w0) as (evsC & TC & MC & FC & HC & HF).
  fold w0.
  destruct (checkSync ext image w0) as [[[m l] needSync] w1].
  cbn [fst snd] in *. destruct needSync.
  - specialize (HF eq_refl).
    destruct (match m with
              | Some x => MarshalManifest ext x
              | None => MarshalList ext l
              end) as [bs merr]. cbn [fst snd].
    set (w2 := snd (logLine (LogManifestBytes bs)
                      (snd (when_err merr
                              (fun e => logLine (LogStorageFailed name e)) w1)))).
    assert (T2 : trace w2 = trace w1 ++ storageLog name merr
                            ++ [EvLog (LogManifestBytes bs)]).
    { subst w2. destruct merr; simpl; rewrite <- ?app_assoc; reflexivity. }
    assert (M2 : manifestsMap w2 = manifestsMap w1 /\ files w2 = files w1).
    { subst w2. destruct merr; simpl; auto. }
    destruct M2 as [M2 F2].
    assert (HM : forallb isMarshalLog (storageLog name merr
                                       ++ [EvLog (LogManifestBytes bs)]) = true).
    { destruct merr; reflexivity. }
    destruct (runs_retry idW isSyncing _ (defaultSyncRetry ext)
                (defaultSyncRetryTime ext) (runs_sync2DockerHub image opt) w2)
      as (evsS & TS & PS & MS & FS).
    fold copy in TS, MS, FS.
    assert (FS' : files (snd (copy w2)) = files w2).
    { apply FS. apply (forallb_existsb_false isSyncing); [|exact PS].
      apply isSyncing_not_write. }
    clear FS. destruct (copy w2) as [rerr w3] eqn:ER.
    unfold idW, id in *. cbn [fst snd] in *.
    assert (T3 : trace w3 = trace w ++ EvLog (LogProcess name)
                   :: evsC ++ (storageLog name merr ++ [EvLog (LogManifestBytes bs)])
                   ++ evsS).
    { rewrite TS, T2, TC, T0. rewrite <- !app_assoc. reflexivity. }
    destruct rerr as [e|].
    + split; [simpl; congruence|]. right. left.
      exists evsC, (storageLog name merr ++ [EvLog (LogManifestBytes bs)]), evsS, e, w2, w3.
      repeat split; try assumption.
      * simpl. rewrite T3. rewrite <- !app_assoc. simpl.
        rewrite <- !app_assoc. reflexivity.
      * simpl. congruence.
    + destruct (persistManifest_trace image bs w3) as (mk & ferr & TP & Hmk & MP).
      cbv zeta in TP, Hmk. fold dir path name in TP, Hmk.
      split; [congruence|]. right. right.
      exists evsC, (storageLog name merr ++ [EvLog (LogManifestBytes bs)]), evsS,
             mk, ferr, bs, w2, w3.
      repeat split; try assumption.
      rewrite TP, T3. rewrite <- !app_assoc. reflexivity.
  - split; [simpl; congruence|]. left. exists evsC. repeat split; try assumption.
    simpl. rewrite TC, T0, <- app_assoc. reflexivity.
Qed.


(** Events of the fetch, of the marshalling and of [sync2DockerHub] are
    of no kind [Q] that none of the three is. *)
Lemma none_before_storage (Q : Event -> bool) (evsF evsM evsS : list Event) :
  (forall e, isFetch e || isMarshalLog e || isSyncing e = true -> Q e = false) ->
  forallb isFetch evsF = true -> forallb isMarshalLog evsM = true ->
  forallb isSyncing evsS = true ->
  existsb Q (evsF ++ evsM ++ evsS) = false.
Proof.
  intros HQ HF HM HS. rewrite !existsb_app.
  rewrite (forallb_existsb_false isFetch Q evsF), (forallb_existsb_false isMarshalLog Q evsM),
    (forallb_existsb_false isSyncing Q evsS); try assumption; try reflexivity;
    intros e He; apply HQ; rewrite He, ?orb_true_r; reflexivity.
Qed.

Ltac by_kind :=
  intros [[]| | | | |];
  cbv [isCheck isFetch isFetchFailed isNotChanged isProcessFailed isPersist
       isWrite isCopy isSyncing isStorage isMarshalLog notSyncing noEvent
       orb negb];
  congruence.

Lemma syncTask_cancelled (image : Image) (opt : SyncOption) (w : World) :
  ctxDone ext image = true -> syncTask ext image opt w = (tt, w).
Proof. intros H. unfold syncTask. rewrite H. reflexivity. Qed.

Lemma eventsOf_nothing {A} (c : St World A) (w : World) :
  snd (c w) = w -> eventsOf c w = [].
Proof. intros H. unfold eventsOf. rewrite H. apply drop_all. Qed.


(** C6. For every image, with a retry budget of at least one attempt:
    (i) the task reaches the storage step (directory creation, writing
    the manifest file) only after a call of [sync2DockerHub] has returned
    no error, and everything after that call belongs to the storage step;
    (ii) when the retried copy ends on an error, the task logs it and
    returns with no storage event and the files as they were; (iii) once
    the storage step is reached the outcome is Synced: the file write is
    attempted whatever the directory creation returned, and an error of
    either is logged and changes nothing else. *)
Theorem persist_only_after_copy (image : Image) (opt : SyncOption) (w : World) :
  0 < defaultSyncRetry ext ->
  let name := Image_String image in
  let evs := eventsOf (syncTask ext image opt) w in
  let w' := snd (syncTask ext image opt w) in
  (existsb isPersist evs = true ->
   exists pre post wa wb,
     evs = pre ++ post /\ existsb isPersist pre = false /\
     forallb isStorage post = true /\
     sync2DockerHub ext image opt wa = (None, wb) /\
     trace wb = trace w ++ pre) /\
  (existsb isProcessFailed evs = true ->
   existsb isPersist evs = false /\ files w' = files w /\
   outcomeOf evs = Some FailedCopy /\
   exists wa wb e,
     retry (defaultSyncRetry ext) (defaultSyncRetryTime ext)
           (sync2DockerHub ext image opt) wa = (Some e, wb)) /\
  (existsb isPersist evs = true ->
   outcomeOf evs = Some Synced /\ existsb isWrite evs = true /\
   (forall dir err, In (EvMkdirAll dir (Some err)) evs ->
                    In (EvLog (LogStorageFailed name err)) evs) /\
   (forall path bs err, In (EvWriteFile path bs (Some err)) evs ->
                        In (EvLog (LogStorageFailed name err)) evs)).
Proof.
  intros Hbudget name evs w'. subst evs w'.
  destruct (ctxDone ext image) eqn:Hctx.
  { rewrite eventsOf_nothing by (rewrite syncTask_cancelled; auto).
    simpl. repeat split; discriminate. }
  destruct (syncTask_paths image opt w Hctx) as (_ & Hpaths).
  cbv zeta in Hpaths. fold name in Hpaths. destruct Hpaths as [P1 | [P2 | P3]].
  - destruct P1 as (evsC & T & HC & F & _).
    rewrite (eventsOf_from_trace _ _ _ T).
    assert (HP : existsb isPersist (EvLog (LogProcess name) :: evsC) = false).
    { simpl. apply (forallb_existsb_false isCheck); [by_kind | exact HC]. }
    assert (HQ : existsb isProcessFailed (EvLog (LogProcess name) :: evsC) = false).
    { simpl. apply (forallb_existsb_false isCheck); [by_kind | exact HC]. }
    rewrite HP, HQ. repeat split; discriminate.
  - destruct P2 as (evsF & evsM & evsS & e & wa & wb & T & HF & HM & HS & F & Hcopy & Twb).
    rewrite (eventsOf_from_trace _ _ _ T).
    assert (Eq : evsF ++ evsM ++ evsS ++ [EvLog (LogProcessFailed name e)]
                 = (evsF ++ evsM ++ evsS) ++ [EvLog (LogProcessFailed name e)])
      by (rewrite <- !app_assoc; reflexivity).
    rewrite Eq.
    assert (Hpre : forall Q,
              (forall e, isFetch e || isMarshalLog e || isSyncing e = true -> Q e = false) ->
              existsb Q (evsF ++ evsM ++ evsS) = false).
    { intros Q HQ. apply none_before_storage; assumption. }
    assert (HP : existsb isPersist (EvLog (LogProcess name) :: (evsF ++ evsM ++ evsS)
                                    ++ [EvLog (LogProcessFailed name e)]) = false).
    { simpl. rewrite (existsb_app _ (evsF ++ evsM ++ evsS)), Hpre by by_kind.
      reflexivity. }
    rewrite HP. split; [discriminate|]. split; [|discriminate].
    intros _. repeat split; [exact F| |eauto].
    unfold outcomeOf. simpl.
    rewrite !(existsb_app _ (evsF ++ evsM ++ evsS)), !Hpre by by_kind. reflexivity.
  - destruct P3 as (evsF & evsM & evsS & mk & ferr & bs & wa & wb
                    & T & HF & HM & HS & Hmk & Hcopy & Twb).
    rewrite (eventsOf_from_trace _ _ _ T).
    set (pre := EvLog (LogProcess name) :: evsF ++ evsM ++ evsS) in *.
    set (path := pathJoin ext _) in *. clearbody path.
    set (post := mk ++ [EvWriteFile path bs ferr] ++ storageLog name ferr).
    assert (Hpre : forall Q, Q (EvLog (LogProcess name)) = false ->
              (forall e, isFetch e || isMarshalLog e || isSyncing e = true -> Q e = false) ->
              existsb Q pre = false).
    { intros Q Q0 HQ. subst pre. simpl. rewrite Q0.
      apply none_before_storage; assumption. }
    assert (Hpost : forallb isStorage post = true /\ existsb isWrite post = true /\
                    existsb isFetchFailed post = false /\
                    existsb isNotChanged post = false /\
                    existsb isProcessFailed post = false).
    { subst post. destruct Hmk as [->|[merr ->]]; [|destruct merr];
        destruct ferr; simpl; auto. }
    destruct Hpost as (HpS & HpW & Hp1 & Hp2 & Hp3).
    split; [|split].
    + intros _. destruct (retry_ok_last _ _ _ _ _ Hbudget Hcopy) as (wa' & Hlast).
      exists pre, post, wa', wb. repeat split; try assumption.
      apply Hpre; [reflexivity | by_kind].
    + rewrite existsb_app, Hp3, (Hpre isProcessFailed) by (reflexivity || by_kind).
      discriminate.
    + intros _. repeat split.
      * unfold outcomeOf. rewrite !existsb_app, Hp1, Hp2, Hp3, HpW.
        rewrite !Hpre by (reflexivity || by_kind). reflexivity.
      * rewrite existsb_app, HpW. apply orb_true_r.
      * intros dir err Hin. apply in_or_app. right.
        apply in_app_or in Hin as [Hin|Hin].
        { assert (Hno : existsb isPersist pre = false)
            by (apply Hpre; [reflexivity | by_kind]).
          assert (Hyes : existsb isPersist pre = true)
            by (apply existsb_exists; eexists; split; [exact Hin | reflexivity]).
          congruence. }
        subst post. destruct Hmk as [->|[merr ->]]; [|destruct merr];
          destruct ferr; simpl in *; intuition congruence.
      * intros path' bs' err Hin. apply in_or_app. right.
        apply in_app_or in Hin as [Hin|Hin].
        { assert (Hno : existsb isPersist pre = false)
            by (apply Hpre; [reflexivity | by_kind]).
          assert (Hyes : existsb isPersist pre = true)
            by (apply existsb_exists; eexists; split; [exact Hin | reflexivity]).
          congruence. }
        subst post. destruct Hmk as [->|[merr ->]]; [|destruct merr];
          destruct ferr; simpl in *; intuition congruence.
Qed.


(** *** Runs with OnlyDownloadManifests *)

Lemma runs_checkSync (image : Image) : runs idW isCheck (checkSync ext image).
Proof.
  intros w. destruct (checkSync_trace image w) as (evs & T & M & F & HC & _).
  exists evs. auto.
Qed.

Lemma runs_WriteFile_call (path : string) (bs : bytes) :
  runs idW isStorage (WriteFile_call ext path bs).
Proof.
  intros w. exists [EvWriteFile path bs (WriteFile ext path bs (fsCalls w))].
  unfold WriteFile_call, nextFsCall, storeFile, emit, mbind, St_bind, mret, St_ret.
  simpl. destruct (WriteFile ext path bs (fsCalls w)); simpl;
    try destruct (WriteFile_written ext _ _ _); simpl;
    repeat split; discriminate.
Qed.

Lemma runs_persistManifest (image : Image) (bs : bytes) :
  runs idW isStorage (persistManifest ext image bs).
Proof.
  unfold persistManifest. cbv zeta.
  apply runs_bind; [apply runs_nextFsCall|]. intros k.
  apply runs_bind.
  - destruct (osStat ext _ k); [|apply runs_ret].
    apply runs_bind.
    + unfold osMkdirAll_call. apply runs_bind; [apply runs_nextFsCall|]. intros j.
      apply runs_bind; [apply runs_emit; reflexivity|]. intros _. apply runs_ret.
    + intros err. apply runs_when_err. intros e2. apply runs_emit. reflexivity.
  - intros _. apply runs_bind; [apply runs_WriteFile_call|].
    intros ferr. apply runs_when_err. intros e. apply runs_emit. reflexivity.
Qed.

(** Whatever kind [P] the events of [sync2DockerHub] are of, so are
    those of the task and of the run, all others being of that kind. *)
Lemma runs_syncTask (P : Event -> bool) (image : Image) (opt : SyncOption) :
  (forall e, notSyncing e = true -> P e = true) ->
  runs idW P (sync2DockerHub ext image opt) ->
  runs idW P (syncTask ext image opt).
Proof.
  intros HP Hsync. unfold syncTask. destruct (ctxDone ext image); [apply runs_ret|].
  apply runs_bind; [apply runs_emit, HP; reflexivity|]. intros _.
  apply runs_bind.
  { apply (runs_weaken _ isCheck); [|apply runs_checkSync].
    intros e He. apply HP. revert e He. by_kind. }
  intros [[m l] needSync]. destruct needSync; [|apply runs_ret]. cbn [negb].
  destruct (match m with
            | Some x => MarshalManifest ext x
            | None => MarshalList ext l
            end) as [bs merr].
  apply runs_bind.
  { apply runs_when_err. intros e. apply runs_emit, HP. reflexivity. }
  intros _. apply runs_bind; [apply runs_emit, HP; reflexivity|]. intros _.
  apply runs_bind; [apply runs_retry, Hsync|].
  intros [e|]; [apply runs_emit, HP; reflexivity|].
  apply (runs_weaken _ isStorage); [|apply runs_persistManifest].
  intros e He. apply HP. revert e He. by_kind.
Qed.

Lemma runs_submitAll (P : Event -> bool) (imgs : Images) (opt : SyncOption) :
  (forall e, notSyncing e = true -> P e = true) ->
  (forall image, runs idW P (sync2DockerHub ext image opt)) ->
  forall i, runs idW P (submitAll ext imgs opt i).
Proof.
  intros HP Hsync. induction imgs as [|image rest IH]; intros i; simpl.
  - apply runs_ret.
  - destruct (poolSubmit ext i).
    + apply runs_bind; [apply runs_emit, HP; reflexivity|]. intros _. apply runs_ret.
    + apply runs_bind; [apply runs_syncTask; auto|].
      intros _. apply IH.
Qed.

Lemma setup_keeps_flag (opt opt' : SyncOption) :
  SyncImages_setup ext opt = Some opt' ->
  OnlyDownloadManifests opt' = OnlyDownloadManifests opt.
Proof.
  unfold SyncImages_setup. intros H.
  destruct (Limit opt =? 0); simpl in H;
    destruct (Report opt); simpl in H;
    try (destruct (make_chan _); simpl in H; [|discriminate]);
    injection H as <-; reflexivity.
Qed.

Lemma runs_SyncImages (P : Event -> bool) (images : Images) (opt : SyncOption) :
  (forall e, notSyncing e = true -> P e = true) ->
  (forall image opt', OnlyDownloadManifests opt' = OnlyDownloadManifests opt ->
                      runs idW P (sync2DockerHub ext image opt')) ->
  runs idW P (SyncImages ext images opt).
Proof.
  intros HP Hsync. unfold SyncImages.
  destruct (batchProcess images opt) as [imgs|]; [|apply runs_ret].
  apply runs_bind; [apply runs_emit, HP; reflexivity|]. intros _.
  destruct (SyncImages_setup ext opt) as [opt'|] eqn:Hsetup; [|apply runs_ret].
  apply setup_keeps_flag in Hsetup.
  apply runs_bind; [apply runs_emit, HP; reflexivity|]. intros _.
  destruct (NewPool ext (Limit opt')).
  - apply runs_bind; [apply runs_emit, HP; reflexivity|]. intros _. apply runs_ret.
  - apply runs_bind; [apply runs_submitAll; auto|].
    intros x. apply runs_ret.
Qed.

Lemma retry_loop_manifests_only (image : Image) (opt : SyncOption) (count : nat)
  (w : World) :
  OnlyDownloadManifests opt = true ->
  retry_loop count (sync2DockerHub ext image opt) None w = (None, w).
Proof.
  intros Hflag. destruct count as [|n]; simpl; [reflexivity|].
  rewrite St_bind_eq, sync2DockerHub_manifests_only by assumption. reflexivity.
Qed.


(** C7. For every image and every option record with
    [OnlyDownloadManifests] set, [sync2DockerHub] returns nil at once and
    leaves the world as it is; so no event of [sync2DockerHub] (its log
    line, the copy) occurs in a run of [SyncImages], while a task that
    [checkSync] tells to sync still writes the manifest file. *)
Theorem manifests_only_skips_copy (opt : SyncOption) :
  OnlyDownloadManifests opt = true ->
  (forall image w, sync2DockerHub ext image opt w = (None, w)) /\
  (forall images w,
      existsb isSyncing (eventsOf (SyncImages ext images opt) w) = false /\
      existsb isCopy (eventsOf (SyncImages ext images opt) w) = false) /\
  (forall image w,
      0 < defaultSyncRetry ext ->
      ctxDone ext image = false ->
      snd (fst (checkSync ext image
                  (snd (logLine (LogProcess (Image_String image)) w)))) = true ->
      existsb isWrite (eventsOf (syncTask ext image opt) w) = true).
Proof.
  intros Hflag. split; [|split].
  - intros image w. apply sync2DockerHub_manifests_only, Hflag.
  - intros images w.
    assert (Hruns : runs idW notSyncing (SyncImages ext images opt)).
    { apply runs_SyncImages; [auto|]. intros image opt' Hopt'.
      apply (runs_weaken _ noEvent); [discriminate|].
      apply runs_sync2DockerHub_manifests_only. congruence. }
    destruct (runs_eventsOf _ _ w Hruns) as (_ & HP & _).
    split; apply (forallb_existsb_false notSyncing); (exact HP || by_kind).
  - intros image w _ Hctx Hneed.
    destruct (syncTask_paths image opt w Hctx) as (_ & [P1 | [P2 | P3]]).
    + destruct P1 as (evsC & _ & _ & _ & Hno). congruence.
    + destruct P2 as (evsF & evsM & evsS & e & wa & wb & _ & _ & _ & _ & _ & Hcopy & _).
      unfold retry in Hcopy. rewrite retry_loop_manifests_only in Hcopy by assumption.
      discriminate.
    + destruct P3 as (evsF & evsM & evsS & mk & ferr & bs & wa & wb & T & _).
      rewrite (eventsOf_from_trace _ _ _ T).
      rewrite !existsb_app. simpl. rewrite !orb_true_r. reflexivity.
Qed.


(** *** The set-up of SyncImages *)

(** C9, amended. In [SyncImages], a [Limit] of zero is
    replaced by [DefaultLimit] before the pool is created.  When the
    set-up goes through, the record [opt] points to afterwards holds the
    resulting limit, the pool is created with it, second event of the
    run after the starting line, and with [Report] set the report
    channel has that limit as its capacity.  The set-up goes through
    unless [Report] is set and [make] does not return a channel for the
    resulting limit, which is so at least for a negative limit and for
    one beyond the bound of the runtime: the run then ends there, with no
    channel and no pool. *)
Theorem SyncImages_limit_and_report (opt : SyncOption) :
  let limit := if Limit opt =? 0 then DefaultLimit ext else Limit opt in
  (forall opt',
      SyncImages_setup ext opt = Some opt' ->
      Limit opt' = limit /\
      (Limit opt = 0 -> Limit opt' = DefaultLimit ext) /\
      (Report opt = true ->
       reportCh opt' = Some (mkChan limit) /\
       chan_cap <$> reportCh opt' = Some (Limit opt')) /\
      (Report opt = false -> reportCh opt' = reportCh opt) /\
      (forall images w,
          len images <= GoInt.int_max ->
          exists imgs rest,
            batchProcess images opt = Some imgs /\
            eventsOf (SyncImages ext images opt) w
            = EvLog (LogStarting (len imgs)) :: EvNewPool limit :: rest /\
            snd (fst (SyncImages ext images opt w)) = opt')) /\
  (SyncImages_setup ext opt = None
   <-> Report opt = true /\ make_chan ext limit = None) /\
  (limit < 0 \/ maxAlloc - hchanSize < sizeofImage * limit ->
   make_chan ext limit = None) /\
  (SyncImages_setup ext opt = None ->
   forall images w,
     len images <= GoInt.int_max ->
     exists imgs,
       batchProcess images opt = Some imgs /\
       fst (fst (SyncImages ext images opt w)) = Panicked /\
       eventsOf (SyncImages ext images opt) w = [EvLog (LogStarting (len imgs))] /\
       reportCh (snd (fst (SyncImages ext images opt w))) = reportCh opt).
Proof.
  intros limit.
  set (opt1 := if Limit opt =? 0 then setLimit opt (DefaultLimit ext) else opt).
  assert (H1 : Limit opt1 = limit /\ Report opt1 = Report opt
               /\ reportCh opt1 = reportCh opt).
  { subst opt1 limit. destruct (Limit opt =? 0); auto. }
  destruct H1 as (HL1 & HR1 & HC1).
  assert (Hsetup : SyncImages_setup ext opt
                   = if Report opt
                     then ch ← make_chan ext limit; Some (setReportCh opt1 ch)
                     else Some opt1).
  { unfold SyncImages_setup. fold opt1. rewrite HR1, HL1. reflexivity. }
  assert (Hchan : forall ch, make_chan ext limit = Some ch -> ch = mkChan limit).
  { intros ch. unfold make_chan. destruct (makechan_panics sizeofImage limit);
      [discriminate|]. destruct (memoryFor ext _); [|discriminate].
    intros [= <-]. reflexivity. }
  split; [|split; [|split]].
  - intros opt' Hsome. rewrite Hsetup in Hsome.
    assert (Hopt' : opt' = if Report opt then setReportCh opt1 (mkChan limit) else opt1).
    { destruct (Report opt); [|injection Hsome as <-; reflexivity].
      destruct (make_chan ext limit) as [ch|] eqn:Hch; [|discriminate].
      simpl in Hsome. injection Hsome as <-. rewrite (Hchan ch eq_refl). reflexivity. }
    assert (HL' : Limit opt' = limit).
    { rewrite Hopt'. destruct (Report opt); simpl; exact HL1. }
    split; [exact HL'|]. split; [|split; [|split]].
    + intros H0. rewrite HL'. subst limit. rewrite H0. reflexivity.
    + intros HR. rewrite Hopt', HR. simpl. rewrite HL1. split; reflexivity.
    + intros HR. rewrite Hopt', HR. exact HC1.
    + intros images w Hmax.
      assert (Hsetup' : SyncImages_setup ext opt = Some opt').
      { rewrite Hsetup. exact Hsome. }
      clear Hopt'.
      destruct (batchProcess_total images opt Hmax) as (imgs & Himgs).
      assert (Hrun : exists rest,
                 trace (snd (SyncImages ext images opt w))
                 = trace w ++ EvLog (LogStarting (len imgs)) :: EvNewPool limit :: rest
                 /\ snd (fst (SyncImages ext images opt w)) = opt').
      { unfold SyncImages. rewrite Himgs, St_bind_eq, Hsetup', St_bind_eq, HL'.
        set (w2 := snd (emit (EvNewPool limit) (snd (logLine (LogStarting (len imgs)) w)))).
        assert (T2 : trace w2 = trace w ++ [EvLog (LogStarting (len imgs)); EvNewPool limit]).
        { subst w2. simpl. rewrite <- app_assoc. reflexivity. }
        destruct (NewPool ext limit) as [err|].
        - exists [EvLog (LogPoolFailed err)]. simpl. rewrite <- !app_assoc.
          split; reflexivity.
        - rewrite St_bind_eq. simpl.
          destruct (runs_submitAll (fun _ => true) (sortImages ext imgs) opt'
                      ltac:(reflexivity)
                      ltac:(intros image; apply (runs_weaken _ isSyncing);
                            [reflexivity | apply runs_sync2DockerHub])
                      0%nat w2) as (rest & T & _).
          exists rest. unfold idW, id in T. rewrite T, T2, <- app_assoc.
          split; reflexivity. }
      destruct Hrun as (rest & T & Hopt).
      exists imgs, rest. split; [exact Himgs|]. split; [|exact Hopt].
      apply eventsOf_from_trace, T.
  - rewrite Hsetup. destruct (Report opt).
    + destruct (make_chan ext limit); simpl; split;
        [discriminate | intros [_ [=]] | auto | reflexivity].
    + split; [discriminate | intros [[=] _]].
  - intros Hout. unfold make_chan.
    rewrite (proj2 (makechan_panics_true sizeofImage limit) Hout). reflexivity.
  - intros Hnone images w Hmax.
    destruct (batchProcess_total images opt Hmax) as (imgs & Himgs).
    exists imgs. split; [exact Himgs|].
    unfold eventsOf, SyncImages. rewrite Himgs, St_bind_eq, Hnone. simpl.
    rewrite drop_app_length. auto.
Qed.


End OrchestratorFacts.

(** ** The orchestrator on the concrete outside *)

Example pause_key : Image_String pause = "gcr.io/google-containers/pause:3.2".
Proof. reflexivity. Qed.

(** The copy fails twice and succeeds on the third attempt: the manifest
    is stored once and the outcome is Synced. *)
Example task_copy_third_attempt :
  eventsOf (syncTask (demoExt fetchSecond copyThird false) pause (batchOpt 0 0))
           (freshWorld ∅)
  = [ EvLog (LogProcess "gcr.io/google-containers/pause:3.2");
      EvGetImageManifest "gcr.io/google-containers/pause:3.2";
      EvGetImageManifest "gcr.io/google-containers/pause:3.2";
      EvLog (LogManifestBytes "sha256:aa");
      EvLog (LogSyncing "gcr.io/google-containers/pause:3.2"
                        "docker.io//google-containers_pause:3.2");
      EvCopyImage "gcr.io/google-containers/pause:3.2"
                  "docker.io//google-containers_pause:3.2" (Some "connection reset");
      EvLog (LogSyncing "gcr.io/google-containers/pause:3.2"
                        "docker.io//google-containers_pause:3.2");
      EvCopyImage "gcr.io/google-containers/pause:3.2"
                  "docker.io//google-containers_pause:3.2" (Some "connection reset");
      EvLog (LogSyncing "gcr.io/google-containers/pause:3.2"
                        "docker.io//google-containers_pause:3.2");
      EvCopyImage "gcr.io/google-containers/pause:3.2"
                  "docker.io//google-containers_pause:3.2" None;
      EvMkdirAll "manifests/gcr.io/google-containers/pause" None;
      EvWriteFile "manifests/gcr.io/google-containers/pause/3.2.json" "sha256:aa" None ]
  /\ outcomeOf (eventsOf (syncTask (demoExt fetchSecond copyThird false) pause
                                   (batchOpt 0 0)) (freshWorld ∅)) = Some Synced.
Proof. split; reflexivity. Qed.

(** An unchanged manifest is skipped. *)
Example task_unchanged :
  outcomeOf (eventsOf (syncTask (demoExt fetchSecond copyThird false) pause (batchOpt 0 0))
                      (freshWorld {[ "gcr.io/google-containers/pause:3.2" := "sha256:aa" ]}))
  = Some SkippedUnchanged.
Proof. reflexivity. Qed.

Example task_copy_down :
  outcomeOf (eventsOf (syncTask (demoExt fetchSecond copyDown false) pause (batchOpt 0 0))
                      (freshWorld ∅))
  = Some FailedCopy.
Proof. reflexivity. Qed.

Lemma checkSync_skips_iff_cached_equal_witness :
  exists l' needSync w',
    checkSync (demoExt fetchSecond copyThird false) pause (freshWorld ∅)
    = (Some "sha256:aa", l', needSync, w') /\ needSync = true.
Proof.
  destruct (checkSync_skips_iff_cached_equal (demoExt fetchSecond copyThird false)
              pause (freshWorld ∅) 1 (Some "sha256:aa") None)
    as (m' & l' & needSync & w' & Hrun & Hiff & Hret & _).
  - vm_compute. lia.
  - intros i Hi. assert (i = 0%nat) as -> by lia. vm_compute. discriminate.
  - reflexivity.
  - assert (Hneed : needSync = true).
    { destruct needSync; [reflexivity|]. exfalso.
      destruct (proj1 Hiff eq_refl) as (val & Hval & _). vm_compute in Hval.
      discriminate. }
    destruct (Hret Hneed) as [-> _]. exists l', needSync, w'. auto.
Defined.

Lemma failed_fetch_stops_task_witness :
  outcomeOf (eventsOf (syncTask (demoExt fetchDown copyThird false) pause (batchOpt 0 0))
                      (freshWorld ∅)) = Some FailedFetch.
Proof.
  destruct (failed_fetch_stops_task (demoExt fetchDown copyThird false) pause
              (batchOpt 0 0) (freshWorld ∅)) as (err & _ & Hout & _).
  - reflexivity.
  - reflexivity.
  - intros i _. vm_compute. discriminate.
  - exact Hout.
Defined.

Lemma persist_only_after_copy_witness :
  files (snd (syncTask (demoExt fetchSecond copyDown false) pause (batchOpt 0 0)
                       (freshWorld ∅))) = files (freshWorld ∅).
Proof.
  apply (persist_only_after_copy (demoExt fetchSecond copyDown false) pause
           (batchOpt 0 0) (freshWorld ∅)); reflexivity.
Defined.

Lemma manifests_only_skips_copy_witness :
  sync2DockerHub (demoExt fetchSecond copyThird false) pause manifestsOnlyOpt
                 (freshWorld ∅) = (None, freshWorld ∅).
Proof.
  apply (manifests_only_skips_copy (demoExt fetchSecond copyThird false)
           manifestsOnlyOpt). reflexivity.
Defined.

Lemma SyncImages_limit_and_report_witness :
  SyncImages_setup (demoExt fetchSecond copyThird false) manifestsOnlyOpt
  = Some (setReportCh (setLimit manifestsOnlyOpt 20) (mkChan 20))
  /\ Limit (setReportCh (setLimit manifestsOnlyOpt 20) (mkChan 20)) = 20
  /\ reportCh (setReportCh (setLimit manifestsOnlyOpt 20) (mkChan 20))
     = Some (mkChan 20).
Proof.
  split; [reflexivity|].
  destruct (proj1 (SyncImages_limit_and_report (demoExt fetchSecond copyThird false)
                     manifestsOnlyOpt)
              (setReportCh (setLimit manifestsOnlyOpt 20) (mkChan 20)))
    as (Hlimit & _ & Hreport & _).
  - reflexivity.
  - split; [exact Hlimit|]. exact (proj1 (Hreport eq_refl)).
Defined.

(** C9 as stated does not hold: with [Report] set and a limit of 2^62,
    within what the spec asks of a limit (at least 1), [make] panics
    (2^62 [Image]s are no buffer the runtime makes): no report channel is
    created, and the run ends after its starting line, before the pool. *)
Lemma report_channel_limit_too_large :
  1 <= Limit largeLimitOpt /\ Report largeLimitOpt = true /\
  SyncImages_setup (demoExt fetchSecond copyThird false) largeLimitOpt = None /\
  fst (fst (SyncImages (demoExt fetchSecond copyThird false) [pause] largeLimitOpt
              (freshWorld ∅))) = Panicked /\
  reportCh (snd (fst (SyncImages (demoExt fetchSecond copyThird false) [pause]
                        largeLimitOpt (freshWorld ∅)))) = None /\
  eventsOf (SyncImages (demoExt fetchSecond copyThird false) [pause] largeLimitOpt)
           (freshWorld ∅) = [EvLog (LogStarting 1)].
Proof.
  split; [vm_compute; discriminate|].
  split; [reflexivity|]. split; [reflexivity|]. split; [reflexivity|].
  split; reflexivity.
Qed.

(** ** gcr.go: the slot channels *)

Module GcrFacts.
Import Gcr.

Lemma holders_insert (l : list PC) (i : nat) (pc pc' : PC) :
  l !! i = Some pc ->
  (holders (<[i := pc']> l) + (if holds pc then 1 else 0)
   = holders l + (if holds pc' then 1 else 0))%nat.
Proof.
  unfold holders. revert i. induction l as [|x l IH]; intros i H; [discriminate|].
  destruct i as [|i]; simpl in *.
  - injection H as ->. destruct (holds pc), (holds pc'); simpl; lia.
  - specialize (IH i H). destruct (holds x); simpl; lia.
Qed.

Lemma in_insert (l : list PC) (i : nat) (pc' x : PC) :
  In x (<[i := pc']> l) -> x = pc' \/ In x l.
Proof.
  revert i. induction l as [|y l IH]; intros i H; [destruct H|].
  destruct i as [|i]; simpl in *.
  - destruct H as [<-|H]; auto.
  - destruct H as [<-|H]; [auto|]. destruct (IH i H); auto.
Qed.

Lemma gcrImageList_step_matched (s s' : Sys) (a : Action) :
  matched s -> step gcrImageList_goroutine s a = Some s' -> matched s'.
Proof.
  intros [Hacq Hlen] Hstep. destruct a as [i m|]; simpl in Hstep.
  - destruct (gos s !! i) as [pc|] eqn:Hi; [|discriminate]. simpl in Hstep.
    assert (Hpc : unacquired pc = false).
    { apply Hacq. apply list_elem_of_In. eapply list_elem_of_lookup_2, Hi. }
    destruct (gcrImageList_goroutine s pc m) as [[pc' n]|] eqn:Hgo; [|discriminate].
    simpl in Hstep. injection Hstep as <-. unfold matched. simpl.
    pose proof (holders_insert (gos s) i pc pc' Hi) as Hcount.
    assert (Hlook : In pc (gos s))
      by (apply list_elem_of_In; eapply list_elem_of_lookup_2, Hi).
    assert (Hpos : holds pc = true -> (0 < holders (gos s))%nat).
    { intros Hh. unfold holders.
      assert (Hin : In pc (List.filter holds (gos s)))
        by (apply filter_In; auto).
      destruct (List.filter holds (gos s)); [destruct Hin | simpl; lia]. }
    destruct pc as [| |acq|acq], m; simpl in Hgo; try discriminate.
    + destruct (chLen s <? chCap s)%nat; [|discriminate].
      injection Hgo as <- <-. split.
      * intros x Hx. apply in_insert in Hx as [->|Hx]; [reflexivity | auto].
      * simpl in Hcount. lia.
    + injection Hgo as <- <-. split.
      * intros x Hx. apply in_insert in Hx as [->|Hx]; [reflexivity | auto].
      * simpl in Hcount. lia.
    + destruct (0 <? chLen s)%nat eqn:Hnz; [|discriminate].
      injection Hgo as <- <-. destruct acq; [|discriminate]. split.
      * intros x Hx. apply in_insert in Hx as [->|Hx]; [reflexivity | auto].
      * simpl in Hcount, Hpos. specialize (Hpos eq_refl). lia.
  - destruct (cancelled s); [discriminate|]. injection Hstep as <-.
    split; assumption.
Qed.

(** In [gcrImageList] every goroutine sends before it receives: whatever
    the schedule, no goroutine is past its body without having sent, and
    the channel buffers exactly one value for each goroutine holding a
    slot. *)
Lemma gcrImageList_matched (cap n : nat) (acts : list Action) (s : Sys) :
  run gcrImageList_goroutine (spawn cap n) acts = Some s -> matched s.
Proof.
  assert (H0 : matched (spawn cap n)).
  { unfold matched, spawn, holders. simpl. split.
    - intros pc Hpc. apply list_elem_of_In, elem_of_replicate in Hpc as [-> _].
      reflexivity.
    - induction n; simpl; auto. }
  revert H0. generalize (spawn cap n). induction acts as [|a acts IH]; intros s0 H0 Hrun.
  - injection Hrun as <-. exact H0.
  - simpl in Hrun. destruct (step gcrImageList_goroutine s0 a) as [s1|] eqn:Hs;
      [|discriminate].
    simpl in Hrun. eapply IH; [|exact Hrun].
    eapply gcrImageList_step_matched; eauto.
Qed.

(** C8, where the code departs from it. [Gcr.Sync] with a process limit
    of 1 and two images: the first goroutine sends its value, the
    deadline of [ctx] passes, the second goroutine takes the [ctx.Done]
    case without having sent and its deferred function receives the value
    of the first, which then finds the channel empty at its own deferred
    receive: no move is left, [processWg.Wait] does not return. *)
Theorem Sync_cancelled_goroutine_takes_slot :
  make_limitCh (Init_processCap (mkGcr 0 1)) = Some 1%nat /\
  exists s : Sys,
    run Sync_goroutine (spawn 1 2)
        [Go 0 Send; Cancel; Go 1 TakeDone; Go 1 Recv; Go 0 Return] = Some s /\
    gos s = [Leaving true; Gone false] /\
    existsb releasedUnacquired (gos s) = true /\
    chLen s = 0%nat /\
    ~ matched s /\
    forall a, step Sync_goroutine s a = None.
Proof.
  split; [reflexivity|].
  eexists. split; [reflexivity|]. simpl. repeat split.
  - intros [Hacq _]. specialize (Hacq (Gone false)). simpl in Hacq.
    discriminate Hacq. auto.
  - intros [i m|]; [|reflexivity].
    destruct i as [|[|i]]; destruct m; reflexivity.
Qed.

End GcrFacts.

(* ===================================================================== *)
(** * Further properties of the code *)
(* ===================================================================== *)

(** ** batchProcess: sizes and numbering of the batches *)

(** X1. With a batch size [> 0] below the length of the list, every batch
    number from [n = len(images) / batchSize] on selects the same batch,
    the last one, [images[batchSize*(n-1):]]: a number past the end is
    not an error, and the batch it gives is not empty, it has
    [batchSize + len(images) mod batchSize] elements. *)
Theorem batch_numbers_past_end (images : Images) (opt : SyncOption) (bn : Z) :
  0 < BatchSize opt -> BatchSize opt < len images ->
  len images <= GoInt.int_max ->
  len images / BatchSize opt <= bn ->
  let n := len images / BatchSize opt in
  let tail := drop (Z.to_nat (BatchSize opt * (n - 1))) images in
  batchProcess images (setBatchNumber opt bn) = Some tail /\
  batchProcess images (setBatchNumber opt n) = Some tail /\
  len tail = BatchSize opt + len images mod BatchSize opt /\
  tail <> [].
Proof.
  intros Hsize Hmany Hmax Hbn n tail.
  destruct (batch_count_bounds _ _ Hsize Hmany Hmax) as (_ & Hn1 & HnL).
  fold n in Hbn, Hn1, HnL.
  assert (Hlen : len tail = BatchSize opt + len images mod BatchSize opt).
  { pose proof (Z.div_mod (len images) (BatchSize opt) ltac:(lia)) as Hdm.
    fold n in Hdm. subst tail. unfold len in *. rewrite length_drop.
    set (r := Z.of_nat (length images) mod BatchSize opt) in *.
    set (bs := BatchSize opt) in *. clearbody r n.
    assert (0 <= bs * (n - 1)) by nia.
    rewrite Nat2Z.inj_sub, Z2Nat.id by nia. nia. }
  split; [|split; [|split; [exact Hlen|]]].
  - rewrite batchProcess_guarded; simpl; try assumption; try lia.
    rewrite decide_True by lia. reflexivity.
  - rewrite batchProcess_guarded; simpl; try assumption; try lia.
    rewrite decide_True by lia. reflexivity.
  - intros Hnil. rewrite Hnil in Hlen. unfold len in Hlen at 1. simpl in Hlen.
    pose proof (Z.mod_pos_bound (len images) (BatchSize opt) Hsize). lia.
Qed.

Lemma batch_numbers_past_end_witness :
  batchProcess (abc ++ abc) (setBatchNumber (batchOpt 2 0) 1000)
  = Some (drop 4 (abc ++ abc)).
Proof.
  destruct (batch_numbers_past_end (abc ++ abc) (batchOpt 2 0) 1000) as (H & _);
    [vm_compute; reflexivity | vm_compute; reflexivity | vm_compute; discriminate
    | vm_compute; discriminate | exact H].
Defined.

(** X2. With both batch fields positive and the batch size below the
    length of the list, the batch returned is never empty: it has at
    least [batchSize] elements, exactly [batchSize] when the batch number
    is below [n = len(images) / batchSize], and fewer than twice
    [batchSize] in any case. *)
Theorem batch_sizes (images : Images) (opt : SyncOption) :
  0 < BatchSize opt -> 0 < BatchNumber opt -> BatchSize opt < len images ->
  len images <= GoInt.int_max ->
  exists out,
    batchProcess images opt = Some out /\
    BatchSize opt <= len out < 2 * BatchSize opt /\
    (BatchNumber opt < len images / BatchSize opt -> len out = BatchSize opt).
Proof.
  intros Hsize Hnum Hmany Hmax.
  destruct (batch_count_bounds _ _ Hsize Hmany Hmax) as (_ & Hn1 & HnL).
  pose proof (Z.div_mod (len images) (BatchSize opt) ltac:(lia)) as Hdm.
  pose proof (Z.mod_pos_bound (len images) (BatchSize opt) Hsize) as Hr.
  rewrite batchProcess_guarded by assumption.
  set (bs := BatchSize opt) in *. set (bn := BatchNumber opt) in *.
  set (n := len images / bs) in *. set (r := len images mod bs) in *.
  clearbody n r. eexists. split; [reflexivity|].
  destruct (decide (n <= bn)) as [Hlast|Hmid].
  - unfold len in *. rewrite length_drop. split; [|lia].
    assert (0 <= bs * (n - 1)) by nia.
    rewrite Nat2Z.inj_sub, Z2Nat.id by nia. nia.
  - assert (Hk : bs * bn <= len images).
    { etransitivity; [|exact HnL]. apply Z.mul_le_mono_nonneg_l; lia. }
    unfold len in *. rewrite length_take, length_drop.
    assert (0 <= bs * (bn - 1)) by nia.
    assert (Z.of_nat (Z.to_nat bs `min` (length images - Z.to_nat (bs * (bn - 1)))) = bs).
    { rewrite Nat.min_l; [lia|]. apply Nat2Z.inj_le.
      rewrite Nat2Z.inj_sub, !Z2Nat.id by nia. nia. }
    lia.
Qed.

Lemma batch_sizes_witness :
  exists out, batchProcess (abc ++ abc ++ abc) (batchOpt 2 2) = Some out /\
              2 <= len out < 2 * 2.
Proof.
  destruct (batch_sizes (abc ++ abc ++ abc) (batchOpt 2 2)) as (out & H1 & H2 & _);
    try (vm_compute; (reflexivity || discriminate)).
  exists out. split; assumption.
Defined.

(** X3. A list shorter than twice the batch size is not split at all:
    whatever the batch number, [batchProcess] returns the whole list. *)
Theorem batch_short_list_whole (images : Images) (opt : SyncOption) :
  len images <= GoInt.int_max ->
  len images < 2 * BatchSize opt ->
  batchProcess images opt = Some images.
Proof.
  intros Hmax Hshort.
  destruct (decide (BatchSize opt <= 0 \/ BatchNumber opt <= 0
                    \/ len images <= BatchSize opt)) as [Hid|Hgo].
  - apply batchProcess_unguarded, Hid.
  - rewrite batchProcess_guarded by lia.
    assert (Hn : len images / BatchSize opt = 1).
    { symmetry. apply (Z.div_unique _ _ 1 (len images - BatchSize opt)); lia. }
    rewrite Hn, decide_True by lia.
    replace (BatchSize opt * (1 - 1)) with 0 by lia. reflexivity.
Qed.

Lemma batch_short_list_whole_witness :
  batchProcess abc (batchOpt 2 7) = Some abc.
Proof.
  apply (batch_short_list_whole abc (batchOpt 2 7));
    vm_compute; (reflexivity || discriminate).
Defined.

(** ** The orchestrator: calls, files and the order of work *)

Ltac kind_cases :=
  intros [[]| | | | |];
  cbv [isCheck isFetch isFetchFailed isNotChanged isProcessFailed isPersist
       isWrite isCopy isSyncing isStorage isMarshalLog notSyncing noEvent
       isProcessLine isSetup isGoodCopy orb negb andb];
  congruence.

Ltac in_solve := repeat (rewrite in_app_iff || simpl); intuition auto.

Section OrchestratorMore.

Context {Manifest MList Any : Type}.
Variable ext : @Externals Manifest MList Any.

Local Abbreviation idW := (@id (@World Any)).
Local Abbreviation World := (@World Any).

(** The events of one call of [sync2DockerHub]. *)
Lemma sync2DockerHub_shape (image : Image) (opt : SyncOption) (w : World) :
  OnlyDownloadManifests opt = false ->
  let src := Image_String image in
  let dst := Image_String (destImageOf ext image opt) in
  let r := sync2DockerHub ext image opt w in
  (exists e, fst r = Some e /\
             eventsOf (sync2DockerHub ext image opt) w = [EvLog (LogSyncing src dst)])
  \/ eventsOf (sync2DockerHub ext image opt) w
     = [EvLog (LogSyncing src dst); EvCopyImage src dst (fst r)].
Proof.
  intros Hflag src dst r. subst r. unfold eventsOf, sync2DockerHub. rewrite Hflag.
  fold (destImageOf ext image opt). fold src dst.
  rewrite !St_bind_eq. simpl.
  destruct (NewPolicyContext ext (syncCalls w)) as [e|]; simpl.
  { left. exists e. rewrite drop_app_length. auto. }
  destruct (ParseReference ext ("//" +:+ src)) as [e|]; simpl.
  { left. exists e. rewrite drop_app_length. auto. }
  destruct (ParseReference ext ("//" +:+ dst)) as [e|]; simpl.
  { left. exists e. rewrite drop_app_length. auto. }
  right. rewrite <- app_assoc, drop_app_length. reflexivity.
Qed.



(** *** checkSync *)

(** The retried fetch makes some number of calls within its budget. *)
Lemma attempts_within_budget (image : Image) (count : nat) :
  forall (w : World) (v : checkSyncVars) (err : option error),
    exists (j : nat) (v' : checkSyncVars) (err' : option error),
      (j <= count)%nat /\
      retry_loop count (checkSync_attempt ext image) err (v, w)
      = (err', (v', fetched w (Image_String image) j)).
Proof.
  induction count as [|n IH]; intros w v err.
  - exists 0%nat, v, err. split; [lia|]. simpl.
    unfold mret, St_ret, fetched. simpl. rewrite app_nil_r, Nat.add_0_r.
    destruct w; reflexivity.
  - simpl. rewrite St_bind_eq, attempt_step. cbn [fst snd].
    destruct (snd (getImageManifest ext (Image_String image) (fetchCalls w))) as [e|].
    + destruct (IH (fetched w (Image_String image) 1)
                   (mkCheckSyncVars
                      (fst (fst (getImageManifest ext (Image_String image) (fetchCalls w))))
                      (snd (fst (getImageManifest ext (Image_String image) (fetchCalls w))))
                      (Some e)) (Some e))
        as (j & v' & err' & Hj & Hrun).
      exists (1 + j)%nat, v', err'. split; [lia|].
      rewrite Hrun, fetched_fetched. reflexivity.
    + exists 1%nat. do 2 eexists. split; [lia | reflexivity].
Qed.

(** X5. [checkSync] only reads: it calls the registry for this image at
    most [DefaultGoRequestRetry] times (a budget of at least one) and,
    when it returns
    [needSync = false], logs one line (the fetch failure or "not
    changed") and returns no manifest and no list; it makes no other
    call and leaves [manifestsMap] and the files as they are. *)
Theorem checkSync_read_only (image : Image) (w : World) :
  0 < DefaultGoRequestRetry ext ->
  let name := Image_String image in
  let r := checkSync ext image w in
  exists j : nat,
    (j <= Z.to_nat (DefaultGoRequestRetry ext))%nat /\
    fetchCalls (snd r) = (fetchCalls w + j)%nat /\
    syncCalls (snd r) = syncCalls w /\ fsCalls (snd r) = fsCalls w /\
    manifestsMap (snd r) = manifestsMap w /\ files (snd r) = files w /\
    (snd (fst r) = true ->
     eventsOf (checkSync ext image) w = replicate j (EvGetImageManifest name)) /\
    (snd (fst r) = false ->
     fst (fst r) = (None, None) /\
     exists line,
       isFetchFailed (EvLog line) || isNotChanged (EvLog line) = true /\
       eventsOf (checkSync ext image) w
       = replicate j (EvGetImageManifest name) ++ [EvLog line]).
Proof.
  intros _ name r. subst r. unfold eventsOf, checkSync, retry. fold name.
  destruct (attempts_within_budget image (Z.to_nat (DefaultGoRequestRetry ext)) w
              (mkCheckSyncVars None None None) None)
    as (j & v' & err' & Hj & Hrun).
  fold name in Hrun. rewrite Hrun. exists j. split; [exact Hj|].
  assert (Hlog : forall line,
            drop (length (trace w))
                 (trace (fetched w name j) ++ [EvLog line])
            = replicate j (EvGetImageManifest name) ++ [EvLog line]).
  { intros line. unfold fetched. simpl. rewrite <- app_assoc, drop_app_length.
    reflexivity. }
  assert (Hquiet : drop (length (trace w)) (trace (fetched w name j))
                   = replicate j (EvGetImageManifest name)).
  { unfold fetched. simpl. rewrite drop_app_length. reflexivity. }
  destruct err' as [e|].
  - simpl. repeat split; try discriminate.
    exists (LogFetchFailed name e). split; [reflexivity | apply Hlog].
  - cbn [manifestsMap fetched].
    destruct (manifestsMap w !! name) as [val|].
    + destruct (_ || _); simpl.
      * repeat split; try discriminate.
        exists (LogNotChanged name). split; [reflexivity | apply Hlog].
      * repeat split; try discriminate. intros _. exact Hquiet.
    + simpl. repeat split; try discriminate. intros _. exact Hquiet.
Qed.


(** *** The task *)

(** X6. An image whose fetch succeeds (at the attempt numbered [k],
    within the budget) and whose manifest or list [reflect.DeepEqual]
    finds equal to the value [manifestsMap] holds for it is skipped: the
    task makes [k + 1] fetch calls, logs "not changed" and returns;
    [sync2DockerHub] is not called and nothing is stored. *)
Theorem unchanged_image_skipped (image : Image) (opt : SyncOption) (w : World)
  (k : nat) (m : option Manifest) (l : option MList) (val : Any) :
  ctxDone ext image = false ->
  (k < Z.to_nat (DefaultGoRequestRetry ext))%nat ->
  (forall i, (i < k)%nat -> fetchFails ext (Image_String image) w i) ->
  getImageManifest ext (Image_String image) (fetchCalls w + k) = (m, l, None) ->
  manifestsMap w !! Image_String image = Some val ->
  (exists x, m = Some x /\ DeepEqual ext (ifaceManifest ext x) val = true)
  \/ (exists y, l = Some y /\ DeepEqual ext (ifaceList ext y) val = true) ->
  let name := Image_String image in
  let evs := eventsOf (syncTask ext image opt) w in
  let w' := snd (syncTask ext image opt w) in
  evs = EvLog (LogProcess name) :: replicate (S k) (EvGetImageManifest name)
        ++ [EvLog (LogNotChanged name)] /\
  outcomeOf evs = Some SkippedUnchanged /\
  existsb isSyncing evs = false /\ existsb isPersist evs = false /\
  syncCalls w' = syncCalls w /\ files w' = files w /\
  manifestsMap w' = manifestsMap w.
Proof.
  intros Hctx Hk Hfail Hok Hval Heq name evs w'. subst evs w'.
  set (w0 := snd (logLine (LogProcess name) w)).
  assert (Hcheck : checkSync ext image w0
            = (None, None, false,
               snd (logLine (LogNotChanged name) (fetched w0 name (S k))))).
  { unfold checkSync, retry.
    rewrite (attempts_succeed_at ext image k _ w0 _ None m l Hk Hfail Hok).
    cbn [var_m var_l manifestsMap fetched w0 logLine emit snd].
    rewrite Hval.
    assert (Htest : bool_decide (m <> None) && deepEqualManifest ext m val
                    || bool_decide (l <> None) && deepEqualList ext l val = true).
    { apply orb_true_iff. destruct Heq as [H|H].
      - left. apply deepEqualManifest_true, H.
      - right. apply deepEqualList_true, H. }
    rewrite Htest. reflexivity. }
  assert (Htask : syncTask ext image opt w
            = (tt, snd (logLine (LogNotChanged name) (fetched w0 name (S k))))).
  { rewrite (syncTask_eq ext image opt w Hctx). cbv zeta. fold name w0.
    rewrite Hcheck. reflexivity. }
  assert (Hev : eventsOf (syncTask ext image opt) w
            = EvLog (LogProcess name) :: replicate (S k) (EvGetImageManifest name)
              ++ [EvLog (LogNotChanged name)]).
  { apply eventsOf_from_trace. rewrite Htask.
    cbn [logLine emit snd trace fetched w0]. rewrite <- !app_assoc. reflexivity. }
  rewrite Hev, Htask.
  assert (Hno : forall Q : Event -> bool,
            Q (EvLog (LogProcess name)) = false ->
            Q (EvGetImageManifest name) = false ->
            Q (EvLog (LogNotChanged name)) = false ->
            existsb Q (EvLog (LogProcess name)
                       :: replicate (S k) (EvGetImageManifest name)
                       ++ [EvLog (LogNotChanged name)]) = false).
  { intros Q Q1 Q2 Q3. cbn [existsb]. rewrite Q1, existsb_app.
    rewrite (existsb_replicate_false Q _ (S k) Q2). simpl. rewrite Q3. reflexivity. }
  repeat split; try (apply Hno; reflexivity).
  unfold outcomeOf. rewrite Hno by reflexivity.
  cbn [existsb isNotChanged]. rewrite existsb_app. simpl.
  rewrite orb_true_r. reflexivity.
Qed.

(** The storage step: what it adds to the trace and does to the files. *)
Lemma persistManifest_effect (image : Image) (bs : bytes) (w : World) :
  let name := Image_String image in
  let dir := pathJoin ext [ManifestDir ext; Repo image; User image; Name image] in
  let path := manifestPath ext image in
  let w' := snd (persistManifest ext image bs w) in
  exists (mk : list Event) (ferr : option error),
    trace w' = trace w ++ mk ++ [EvWriteFile path bs ferr] ++ storageLog name ferr /\
    (mk = [] \/ exists merr, mk = EvMkdirAll dir merr :: storageLog name merr) /\
    match ferr with
    | None => files w' = <[path := bs]> (files w)
    | Some _ =>
        files w' = files w
        \/ exists n, files w' = <[path := String.substring 0 n bs]> (files w)
    end /\
    manifestsMap w' = manifestsMap w.
Proof.
  intros name dir path w'. subst w'. unfold manifestPath in path. fold dir in path.
  unfold persistManifest. cbv zeta. fold dir. fold path. fold name.
  clearbody dir path name.
  unfold osMkdirAll_call, WriteFile_call, nextFsCall, storeFile, when_err,
    logLine, emit, mbind, St_bind, mret, St_ret. simpl.
  destruct (osStat ext dir (fsCalls w)) as [serr|]; simpl.
  - exists (EvMkdirAll dir (osMkdirAll ext dir (S (fsCalls w)))
            :: storageLog name (osMkdirAll ext dir (S (fsCalls w)))).
    exists (WriteFile ext path bs (S (S (fsCalls w)))).
    destruct (osMkdirAll ext dir (S (fsCalls w))); simpl;
      destruct (WriteFile ext path bs (S (S (fsCalls w)))); simpl;
      try destruct (WriteFile_written ext _ _ _); simpl;
      (split; [rewrite <- ?app_assoc; reflexivity|];
       split; [right; first [exists None; reflexivity | eexists (Some _); reflexivity]|];
       split; [first [reflexivity | left; reflexivity | right; eexists; reflexivity]
              | reflexivity]).
  - exists [], (WriteFile ext path bs (S (fsCalls w))).
    destruct (WriteFile ext path bs (S (fsCalls w))); simpl;
      try destruct (WriteFile_written ext _ _ _); simpl;
      (split; [rewrite <- ?app_assoc; reflexivity|];
       split; [left; reflexivity|];
       split; [first [reflexivity | left; reflexivity | right; eexists; reflexivity]
              | reflexivity]).
Qed.

Lemma trace_eventsOf {A} (P : Event -> bool) (c : St World A) (w : World) :
  runs idW P c -> trace (snd (c w)) = trace w ++ eventsOf c w.
Proof. intros H. apply (runs_eventsOf P c w H). Qed.

Lemma runs_copy (image : Image) (opt : SyncOption) :
  runs idW isSyncing
       (retry (defaultSyncRetry ext) (defaultSyncRetryTime ext)
              (sync2DockerHub ext image opt)).
Proof. apply runs_retry, runs_sync2DockerHub. Qed.

(** The events of a task that is not cancelled, piece by piece. *)
Lemma syncTask_anatomy (image : Image) (opt : SyncOption) (w : World) :
  ctxDone ext image = false ->
  let name := Image_String image in
  let w0 := snd (logLine (LogProcess name) w) in
  let r := checkSync ext image w0 in
  let mb := match fst (fst (fst r)) with
            | Some x => MarshalManifest ext x
            | None => MarshalList ext (snd (fst (fst r)))
            end in
  let w2 := snd (logLine (LogManifestBytes (fst mb))
                   (snd (when_err (snd mb)
                           (fun e => logLine (LogStorageFailed name e)) (snd r)))) in
  let copy := retry (defaultSyncRetry ext) (defaultSyncRetryTime ext)
                    (sync2DockerHub ext image opt) in
  eventsOf (syncTask ext image opt) w
  = EvLog (LogProcess name) :: eventsOf (checkSync ext image) w0
    ++ (if snd (fst r)
        then storageLog name (snd mb) ++ [EvLog (LogManifestBytes (fst mb))]
             ++ eventsOf copy w2
             ++ match fst (copy w2) with
                | Some e => [EvLog (LogProcessFailed name e)]
                | None => eventsOf (persistManifest ext image (fst mb)) (snd (copy w2))
                end
        else []) /\
  files w2 = files w /\ files (snd (copy w2)) = files w.
Proof.
  intros Hctx name w0 r mb w2 copy.
  pose proof (trace_eventsOf isCheck _ w0 (runs_checkSync ext image)) as TC.
  fold r in TC.
  destruct (checkSync_trace ext image w0) as (_ & _ & _ & FC & _). fold r in FC.
  assert (T2 : trace w2 = trace (snd r) ++ storageLog name (snd mb)
                          ++ [EvLog (LogManifestBytes (fst mb))]).
  { subst w2. destruct (snd mb); simpl; rewrite <- ?app_assoc; reflexivity. }
  assert (F2 : files w2 = files (snd r)).
  { subst w2. destruct (snd mb); reflexivity. }
  pose proof (trace_eventsOf isSyncing _ w2 (runs_copy image opt)) as TS.
  fold copy in TS.
  destruct (runs_eventsOf isSyncing _ w2 (runs_copy image opt)) as (_ & PS & _ & FS).
  fold copy in PS, FS.
  assert (F3 : files (snd (copy w2)) = files w2).
  { apply FS. apply (forallb_existsb_false isSyncing); [kind_cases | exact PS]. }
  split; [|split; [rewrite F2, FC; reflexivity | rewrite F3, F2, FC; reflexivity]].
  apply eventsOf_from_trace. rewrite (syncTask_eq ext image opt w Hctx). cbv zeta.
  fold name w0 r mb w2 copy.
  destruct (snd (fst r)).
  - destruct (fst (copy w2)) as [e|].
    + cbn [logLine emit snd trace]. rewrite TS, T2, TC. subst w0. simpl.
      rewrite <- !app_assoc. reflexivity.
    + rewrite (trace_eventsOf isStorage _ _ (runs_persistManifest ext image (fst mb))).
      rewrite TS, T2, TC. subst w0. simpl. rewrite <- !app_assoc. reflexivity.
  - simpl. rewrite TC, app_nil_r. subst w0. simpl. rewrite <- app_assoc. reflexivity.
Qed.


Lemma in_existsb (Q : Event -> bool) (e : Event) (evs : list Event) :
  In e evs -> Q e = true -> existsb Q evs = true.
Proof. intros Hin HQ. apply existsb_exists. eauto. Qed.

Lemma forallb_not_in (P : Event -> bool) (e : Event) (evs : list Event) :
  forallb P evs = true -> P e = false -> ~ In e evs.
Proof.
  intros HP He Hin. rewrite forallb_forall in HP. specialize (HP e Hin). congruence.
Qed.

(** What the task stores when it gets as far as the storage step. *)
Lemma stored_when_synced (image : Image) (opt : SyncOption) (w : World) :
  ctxDone ext image = false ->
  let name := Image_String image in
  let r := checkSync ext image (snd (logLine (LogProcess name) w)) in
  let bs := fst (match fst (fst (fst r)) with
                 | Some x => MarshalManifest ext x
                 | None => MarshalList ext (snd (fst (fst r)))
                 end) in
  let evs := eventsOf (syncTask ext image opt) w in
  let w' := snd (syncTask ext image opt w) in
  snd (fst r) = true ->
  existsb isProcessFailed evs = false ->
  exists ferr,
    In (EvWriteFile (manifestPath ext image) bs ferr) evs /\
    (forall p b e, In (EvWriteFile p b e) evs ->
                   EvWriteFile p b e = EvWriteFile (manifestPath ext image) bs ferr) /\
    match ferr with
    | None => files w' = <[manifestPath ext image := bs]> (files w)
    | Some _ =>
        files w' = files w
        \/ exists n,
             files w' = <[manifestPath ext image := String.substring 0 n bs]> (files w)
    end /\
    (ferr = None -> files w' !! manifestPath ext image = Some bs).
Proof.
  intros Hctx name r bs evs w' Hneed Hok. subst evs w'.
  destruct (syncTask_anatomy image opt w Hctx) as (Hev & _ & F3).
  cbv zeta in Hev, F3. fold name r in Hev, F3. rewrite Hneed in Hev.
  unfold bs. rewrite (syncTask_eq ext image opt w Hctx). cbv zeta. fold name r.
  rewrite Hneed.
  set (mb := match fst (fst (fst r)) with
             | Some x => MarshalManifest ext x
             | None => MarshalList ext (snd (fst (fst r)))
             end) in *.
  set (w2 := snd (logLine (LogManifestBytes (fst mb)) _)) in *.
  set (copy := retry (defaultSyncRetry ext) (defaultSyncRetryTime ext)
                     (sync2DockerHub ext image opt)) in *.
  destruct (runs_eventsOf isCheck _ (snd (logLine (LogProcess name) w))
              (runs_checkSync ext image)) as (_ & PC & _).
  destruct (runs_eventsOf isSyncing _ w2 (runs_copy image opt)) as (_ & PS & _).
  fold copy in PS.
  set (evsC := eventsOf (checkSync ext image) _) in *.
  set (evsS := eventsOf copy w2) in *.
  destruct (fst (copy w2)) as [e|] eqn:Hcopy.
  { exfalso.
    assert (Hin : In (EvLog (LogProcessFailed name e))
                     (eventsOf (syncTask ext image opt) w)).
    { rewrite Hev. in_solve. }
    rewrite (in_existsb isProcessFailed _ _ Hin eq_refl) in Hok. discriminate. }
  destruct (persistManifest_effect image (fst mb) (snd (copy w2)))
    as (mk & ferr & TP & Hmk & FP & _).
  cbv zeta in TP, Hmk, FP. fold name in TP, Hmk.
  rewrite (eventsOf_from_trace _ _ _ TP) in Hev.
  exists ferr. rewrite Hev.
  assert (Hpre : forall p b e,
            ~ In (EvWriteFile p b e)
                 (evsC ++ storageLog name (snd mb) ++ [EvLog (LogManifestBytes (fst mb))]
                  ++ evsS)).
  { intros p b e Hin. apply in_app_or in Hin as [Hin|Hin].
    - revert Hin. apply (forallb_not_in isCheck); [exact PC | reflexivity].
    - apply in_app_or in Hin as [Hin|Hin].
      + destruct (snd mb); simpl in Hin; [destruct Hin as [[=]|[]] | destruct Hin].
      + destruct Hin as [[=]|Hin].
        revert Hin. apply (forallb_not_in isSyncing); [exact PS | reflexivity]. }
  assert (Hpost : forall p b e,
            In (EvWriteFile p b e)
               (mk ++ [EvWriteFile (manifestPath ext image) (fst mb) ferr]
                ++ storageLog name ferr) ->
            EvWriteFile p b e = EvWriteFile (manifestPath ext image) (fst mb) ferr).
  { intros p b e Hin. apply in_app_or in Hin as [Hin|Hin].
    - destruct Hmk as [->|[merr ->]]; [destruct Hin|].
      destruct Hin as [[=]|Hin]. destruct merr; simpl in Hin; [destruct Hin as [[=]|[]] | destruct Hin].
    - destruct Hin as [<-|Hin]; [reflexivity|].
      destruct ferr; simpl in Hin; [destruct Hin as [[=]|[]] | destruct Hin]. }
  split; [|split; [|split]].
  - in_solve.
  - intros p b e [[=]|Hin].
    replace (evsC ++ storageLog name (snd mb) ++ [EvLog (LogManifestBytes (fst mb))]
             ++ evsS ++ mk ++ [EvWriteFile (manifestPath ext image) (fst mb) ferr]
             ++ storageLog name ferr)
      with ((evsC ++ storageLog name (snd mb) ++ [EvLog (LogManifestBytes (fst mb))]
             ++ evsS)
            ++ (mk ++ [EvWriteFile (manifestPath ext image) (fst mb) ferr]
                ++ storageLog name ferr)) in Hin
      by (rewrite <- !app_assoc; reflexivity).
    apply in_app_or in Hin as [Hin|Hin]; [destruct (Hpre p b e Hin) | auto].
  - destruct ferr.
    + destruct FP as [FP|[n FP]]; [left | right; exists n]; rewrite FP, F3; reflexivity.
    + rewrite FP, F3. reflexivity.
  - intros ->. rewrite FP. apply lookup_insert_eq.
Qed.


(** X7. When [checkSync] tells the task to sync and the retried copy
    does not end on an error, the task writes one file: the path is
    [ManifestDir/Repo/User/Name/Tag.json] and the content is what
    [MarshalIndent] returned for the manifest (for the list when the
    manifest is nil), also when marshalling returned an error, which is
    only logged.  The file holds that content afterwards when the write
    returned no error.  When it returned one, the files are as before
    (the file could not be opened) or the file holds what was written of
    the content, nothing or a part ([WriteFile] truncates the file it
    opens); no other file is touched in either case. *)
Theorem synced_manifest_stored (image : Image) (opt : SyncOption) (w : World) :
  ctxDone ext image = false ->
  let name := Image_String image in
  let r := checkSync ext image (snd (logLine (LogProcess name) w)) in
  let bs := fst (match fst (fst (fst r)) with
                 | Some x => MarshalManifest ext x
                 | None => MarshalList ext (snd (fst (fst r)))
                 end) in
  let evs := eventsOf (syncTask ext image opt) w in
  let w' := snd (syncTask ext image opt w) in
  snd (fst r) = true ->
  existsb isProcessFailed evs = false ->
  exists ferr,
    In (EvWriteFile (manifestPath ext image) bs ferr) evs /\
    (forall p b e, In (EvWriteFile p b e) evs ->
                   EvWriteFile p b e = EvWriteFile (manifestPath ext image) bs ferr) /\
    match ferr with
    | None => files w' = <[manifestPath ext image := bs]> (files w)
    | Some _ =>
        files w' = files w
        \/ exists n,
             files w' = <[manifestPath ext image := String.substring 0 n bs]> (files w)
    end /\
    (ferr = None -> files w' !! manifestPath ext image = Some bs).
Proof. exact (stored_when_synced image opt w). Qed.

(** A task that is not cancelled either gets as far as the storage step
    or leaves the files alone. *)
Lemma task_stores_or_not (image : Image) (opt : SyncOption) (w : World) :
  ctxDone ext image = false ->
  let r := checkSync ext image (snd (logLine (LogProcess (Image_String image)) w)) in
  let evs := eventsOf (syncTask ext image opt) w in
  let w' := snd (syncTask ext image opt w) in
  (snd (fst r) = true /\ existsb isProcessFailed evs = false)
  \/ (files w' = files w /\ existsb isPersist evs = false).
Proof.
  intros Hctx r evs w'. subst evs w'.
  destruct (syncTask_anatomy image opt w Hctx) as (Hev & _ & F3).
  cbv zeta in Hev, F3. fold r in Hev, F3.
  rewrite (syncTask_eq ext image opt w Hctx). cbv zeta. fold r.
  set (name := Image_String image) in *.
  set (mb := match fst (fst (fst r)) with
             | Some x => MarshalManifest ext x
             | None => MarshalList ext (snd (fst (fst r)))
             end) in *.
  set (w2 := snd (logLine (LogManifestBytes (fst mb)) _)) in *.
  set (copy := retry (defaultSyncRetry ext) (defaultSyncRetryTime ext)
                     (sync2DockerHub ext image opt)) in *.
  destruct (runs_eventsOf isCheck _ (snd (logLine (LogProcess name) w))
              (runs_checkSync ext image)) as (_ & PC & _ & FC).
  fold r in FC.
  destruct (runs_eventsOf isSyncing _ w2 (runs_copy image opt)) as (_ & PS & _).
  fold copy in PS.
  set (evsC := eventsOf (checkSync ext image) _) in *.
  set (evsS := eventsOf copy w2) in *.
  assert (HC : forall Q, (forall e, isCheck e = true -> Q e = false) ->
                         existsb Q evsC = false).
  { intros Q HQ. apply (forallb_existsb_false isCheck); assumption. }
  assert (HS : forall Q, (forall e, isSyncing e = true -> Q e = false) ->
                         existsb Q evsS = false).
  { intros Q HQ. apply (forallb_existsb_false isSyncing); assumption. }
  assert (HM : forall Q, (forall e, isMarshalLog e = true -> Q e = false) ->
                         existsb Q (storageLog name (snd mb)) = false).
  { intros Q HQ. destruct (snd mb); simpl; [rewrite HQ|]; reflexivity. }
  destruct (snd (fst r)).
  - destruct (fst (copy w2)) as [e|].
    + right. split; [simpl; exact F3|]. rewrite Hev.
      repeat (rewrite existsb_app || cbn [existsb app]).
      rewrite HC, HM, HS by kind_cases. reflexivity.
    + left. split; [reflexivity|]. rewrite Hev.
      destruct (runs_eventsOf isStorage _ (snd (copy w2))
                  (runs_persistManifest ext image (fst mb))) as (_ & PP & _).
      repeat (rewrite existsb_app || cbn [existsb app]).
      rewrite HC, HM, HS by kind_cases. simpl.
      apply (forallb_existsb_false isStorage); [kind_cases | exact PP].
  - right. split.
    + simpl. rewrite FC; [reflexivity|]. apply HC. kind_cases.
    + rewrite Hev, app_nil_r. simpl. apply HC. kind_cases.
Qed.

(** X8. A task touches no file but the manifest file of its own image:
    every write it attempts carries that path, every other file is as
    before, and [manifestsMap] is as before. *)
Theorem task_writes_own_file_only (image : Image) (opt : SyncOption) (w : World) :
  let evs := eventsOf (syncTask ext image opt) w in
  let w' := snd (syncTask ext image opt w) in
  (forall p b e, In (EvWriteFile p b e) evs -> p = manifestPath ext image) /\
  (forall q, q <> manifestPath ext image -> files w' !! q = files w !! q) /\
  manifestsMap w' = manifestsMap w.
Proof.
  intros evs w'. subst evs w'.
  destruct (ctxDone ext image) eqn:Hctx.
  { rewrite eventsOf_nothing by (rewrite syncTask_cancelled; auto).
    rewrite syncTask_cancelled by assumption. simpl. repeat split. intros p b e []. }
  destruct (syncTask_paths ext image opt w Hctx) as (HM & _). cbv zeta in HM.
  split; [|split; [|exact HM]].
  - intros p b e Hin.
    destruct (task_stores_or_not image opt w Hctx) as [[Hneed Hok]|[_ Hno]].
    + destruct (stored_when_synced image opt w Hctx Hneed Hok) as (ferr & _ & Huniq & _).
      specialize (Huniq p b e Hin). congruence.
    + cbv zeta in Hno. rewrite (in_existsb isPersist _ _ Hin eq_refl) in Hno.
      discriminate.
  - intros q Hq.
    destruct (task_stores_or_not image opt w Hctx) as [[Hneed Hok]|[HF _]].
    + destruct (stored_when_synced image opt w Hctx Hneed Hok) as (ferr & _ & _ & HF & _).
      cbv zeta in HF. destruct ferr; [destruct HF as [HF|[n HF]]|]; rewrite HF;
        [reflexivity | apply lookup_insert_ne; congruence
         | apply lookup_insert_ne; congruence].
    + cbv zeta in HF. rewrite HF. reflexivity.
Qed.

(** *** The retried copy *)

Lemma eventsOf_bind {A B} (P : Event -> bool) (c : St World A)
  (k : A -> St World B) (w : World) :
  runs idW P c -> (forall a, runs idW P (k a)) ->
  eventsOf (c ≫= k) w = eventsOf c w ++ eventsOf (k (fst (c w))) (snd (c w)).
Proof.
  intros Hc Hk. apply eventsOf_from_trace. rewrite St_bind_eq.
  rewrite (trace_eventsOf P _ _ (Hk _)), (trace_eventsOf P _ _ Hc).
  rewrite app_assoc. reflexivity.
Qed.

Lemma no_copy_ok (evs : list Event) :
  existsb isCopy evs = false -> noCopyAfterGood evs = true.
Proof.
  induction evs as [|e evs IH]; [reflexivity|]. simpl. intros H.
  apply orb_false_elim in H as [He Hevs].
  destruct e as [| |? ? []| | |]; simpl in *; try discriminate; auto.
Qed.

Lemma noCopyAfterGood_app_l (a b : list Event) :
  existsb isCopy a = false -> noCopyAfterGood (a ++ b) = noCopyAfterGood b.
Proof.
  induction a as [|e a IH]; [reflexivity|]. simpl. intros H.
  apply orb_false_elim in H as [He Ha].
  destruct e as [| |? ? []| | |]; simpl in *; try discriminate; auto.
Qed.

Lemma noCopyAfterGood_app_r (a b : list Event) :
  existsb isCopy b = false -> noCopyAfterGood (a ++ b) = noCopyAfterGood a.
Proof.
  intros Hb. induction a as [|e a IH]; simpl.
  - apply no_copy_ok, Hb.
  - destruct (isGoodCopy e); [|exact IH].
    rewrite existsb_app, Hb, orb_false_r. reflexivity.
Qed.

Lemma filter_copy_none (evs : list Event) :
  existsb isCopy evs = false -> List.filter isCopy evs = [].
Proof.
  induction evs as [|e evs IH]; [reflexivity|]. simpl. intros H.
  apply orb_false_elim in H as [-> Hevs]. auto.
Qed.

(** The retried copy makes at most [count] copies and none after one
    that returned no error. *)
Lemma copy_loop (image : Image) (opt : SyncOption) (count : nat) :
  forall (err : option error) (w : World),
    (length (List.filter isCopy
               (eventsOf (retry_loop count (sync2DockerHub ext image opt) err) w))
     <= count)%nat /\
    noCopyAfterGood
      (eventsOf (retry_loop count (sync2DockerHub ext image opt) err) w) = true.
Proof.
  induction count as [|n IH]; intros err w.
  - simpl. rewrite eventsOf_nothing by reflexivity. simpl. auto.
  - cbn [retry_loop].
    rewrite (eventsOf_bind isSyncing).
    2: apply runs_sync2DockerHub.
    2: { intros [e|]; [apply runs_retry_loop, runs_sync2DockerHub | apply runs_ret]. }
    destruct (OnlyDownloadManifests opt) eqn:Hflag.
    { rewrite (eventsOf_nothing (sync2DockerHub ext image opt) w)
        by (rewrite sync2DockerHub_manifests_only by assumption; reflexivity).
      rewrite sync2DockerHub_manifests_only by assumption. cbn [fst snd].
      rewrite (eventsOf_nothing (mret None)) by reflexivity.
      simpl. split; [lia | reflexivity]. }
    destruct (sync2DockerHub_shape image opt w Hflag) as [(e & Hr & Hev)|Hev];
      cbv zeta in Hev; rewrite Hev.
    + rewrite Hr. destruct (IH (Some e) (snd (sync2DockerHub ext image opt w)))
        as (Hn & Hgood).
      split; [simpl; lia | simpl; exact Hgood].
    + destruct (fst (sync2DockerHub ext image opt w)) as [e|].
      * destruct (IH (Some e) (snd (sync2DockerHub ext image opt w))) as (Hn & Hgood).
        split; [simpl; lia | simpl; exact Hgood].
      * rewrite (eventsOf_nothing (mret None)) by reflexivity. simpl.
        split; [lia | reflexivity].
Qed.

(** X9. With a budget of at least one attempt, a task makes at most
    [defaultSyncRetry] copies, and none after a copy that returned no
    error: the retried copy stops at the first success. *)
Theorem task_copies_within_budget (image : Image) (opt : SyncOption) (w : World) :
  0 < defaultSyncRetry ext ->
  (length (List.filter isCopy (eventsOf (syncTask ext image opt) w))
   <= Z.to_nat (defaultSyncRetry ext))%nat /\
  noCopyAfterGood (eventsOf (syncTask ext image opt) w) = true.
Proof.
  intros _. destruct (ctxDone ext image) eqn:Hctx.
  { rewrite eventsOf_nothing by (rewrite syncTask_cancelled; auto).
    simpl. split; [lia | reflexivity]. }
  destruct (syncTask_anatomy image opt w Hctx) as (Hev & _). cbv zeta in Hev.
  rewrite Hev. clear Hev.
  set (name := Image_String image).
  set (r := checkSync ext image _).
  set (mb := match fst (fst (fst r)) with
             | Some x => MarshalManifest ext x
             | None => MarshalList ext (snd (fst (fst r)))
             end).
  set (w2 := snd (logLine (LogManifestBytes (fst mb)) _)).
  destruct (runs_eventsOf isCheck _ (snd (logLine (LogProcess name) w))
              (runs_checkSync ext image)) as (_ & PC & _).
  set (evsC := eventsOf (checkSync ext image) _) in *.
  assert (HC : existsb isCopy evsC = false)
    by (apply (forallb_existsb_false isCheck); [kind_cases | exact PC]).
  destruct (copy_loop image opt (Z.to_nat (defaultSyncRetry ext)) None w2)
    as (Hn & Hgood).
  fold (retry (defaultSyncRetry ext) (defaultSyncRetryTime ext)
              (sync2DockerHub ext image opt)) in Hn, Hgood.
  set (copy := retry (defaultSyncRetry ext) (defaultSyncRetryTime ext)
                     (sync2DockerHub ext image opt)) in *.
  set (evsS := eventsOf copy w2) in *.
  assert (HM : existsb isCopy (storageLog name (snd mb)) = false)
    by (destruct (snd mb); reflexivity).
  assert (HT : existsb isCopy
                 match fst (copy w2) with
                 | Some e => [EvLog (LogProcessFailed name e)]
                 | None => eventsOf (persistManifest ext image (fst mb)) (snd (copy w2))
                 end = false).
  { destruct (fst (copy w2)); [reflexivity|].
    destruct (runs_eventsOf isStorage _ (snd (copy w2))
                (runs_persistManifest ext image (fst mb))) as (_ & PP & _).
    apply (forallb_existsb_false isStorage); [kind_cases | exact PP]. }
  cbn [List.filter isCopy noCopyAfterGood isGoodCopy].
  destruct (snd (fst r)).
  - rewrite noCopyAfterGood_app_l by exact HC.
    rewrite noCopyAfterGood_app_l by exact HM.
    cbn [app noCopyAfterGood isGoodCopy].
    rewrite noCopyAfterGood_app_r by exact HT.
    split; [|exact Hgood].
    repeat (rewrite List.filter_app || cbn [List.filter isCopy app]).
    rewrite (filter_copy_none evsC HC), (filter_copy_none _ HM),
      (filter_copy_none _ HT).
    simpl. rewrite app_nil_r. exact Hn.
  - rewrite app_nil_r, (filter_copy_none evsC HC). split; [simpl; lia|].
    apply no_copy_ok, HC.
Qed.

(** *** The run *)

Lemma runs_any_sync2DockerHub (image : Image) (opt : SyncOption) :
  runs idW (fun _ => true) (sync2DockerHub ext image opt).
Proof.
  apply (runs_weaken _ isSyncing); [reflexivity | apply runs_sync2DockerHub].
Qed.


Lemma runs_any_submitAll (imgs : Images) (opt : SyncOption) (i : nat) :
  runs idW (fun _ => true) (submitAll ext imgs opt i).
Proof.
  apply runs_submitAll; [reflexivity | intros; apply runs_any_sync2DockerHub].
Qed.




(** The events of a run whose batch and set-up succeed. *)
Lemma SyncImages_events (images imgs : Images) (opt opt' : SyncOption) (w : World) :
  batchProcess images opt = Some imgs ->
  SyncImages_setup ext opt = Some opt' ->
  let w2 := snd (emit (EvNewPool (Limit opt'))
                   (snd (logLine (LogStarting (len imgs)) w))) in
  match NewPool ext (Limit opt') with
  | Some err =>
      SyncImages ext images opt w
      = (Fatal, opt', snd (logLine (LogPoolFailed err) w2)) /\
      eventsOf (SyncImages ext images opt) w
      = [EvLog (LogStarting (len imgs)); EvNewPool (Limit opt');
         EvLog (LogPoolFailed err)]
  | None =>
      fst (SyncImages ext images opt w)
      = (fst (submitAll ext (sortImages ext imgs) opt' 0 w2), opt') /\
      snd (SyncImages ext images opt w)
      = snd (submitAll ext (sortImages ext imgs) opt' 0 w2) /\
      eventsOf (SyncImages ext images opt) w
      = [EvLog (LogStarting (len imgs)); EvNewPool (Limit opt')]
        ++ eventsOf (submitAll ext (sortImages ext imgs) opt' 0) w2
  end.
Proof.
  intros Himgs Hsetup w2.
  assert (E : SyncImages ext images opt w
              = match NewPool ext (Limit opt') with
                | Some err => (Fatal, opt', snd (logLine (LogPoolFailed err) w2))
                | None => (fst (submitAll ext (sortImages ext imgs) opt' 0 w2), opt',
                           snd (submitAll ext (sortImages ext imgs) opt' 0 w2))
                end).
  { unfold SyncImages. rewrite Himgs, St_bind_eq, Hsetup, St_bind_eq. fold w2.
    destruct (NewPool ext (Limit opt')); reflexivity. }
  assert (T2 : trace w2 = trace w ++ [EvLog (LogStarting (len imgs));
                                      EvNewPool (Limit opt')]).
  { subst w2. simpl. rewrite <- app_assoc. reflexivity. }
  clearbody w2.
  destruct (NewPool ext (Limit opt')) as [err|].
  - split; [exact E|]. apply eventsOf_from_trace. rewrite E. simpl.
    rewrite T2, <- app_assoc. reflexivity.
  - rewrite E. repeat split. apply eventsOf_from_trace. rewrite E. cbn [snd].
    rewrite (trace_eventsOf (fun _ => true) _ w2 (runs_any_submitAll _ _ _)).
    rewrite T2, <- app_assoc. reflexivity.
Qed.

(** The set-up puts [DefaultLimit] in the place of a zero limit. *)
Lemma setup_limit (opt opt' : SyncOption) :
  SyncImages_setup ext opt = Some opt' ->
  Limit opt' = (if Limit opt =? 0 then DefaultLimit ext else Limit opt).
Proof.
  unfold SyncImages_setup.
  set (opt1 := if Limit opt =? 0 then setLimit opt (DefaultLimit ext) else opt).
  assert (H1 : Limit opt1 = (if Limit opt =? 0 then DefaultLimit ext else Limit opt)).
  { subst opt1. destruct (Limit opt =? 0); auto. }
  destruct (Report opt1).
  - destruct (make_chan ext (Limit opt1)); [|discriminate]. intros [= <-]. exact H1.
  - intros [= <-]. exact H1.
Qed.

(** X10. A run of [SyncImages] never changes [manifestsMap]: what the
    tasks fetch goes to files only; and a run that attempts no
    [WriteFile] leaves the files as they are. *)
Theorem run_keeps_manifestsMap (images : Images) (opt : SyncOption) (w : World) :
  manifestsMap (snd (SyncImages ext images opt w)) = manifestsMap w /\
  (existsb isWrite (eventsOf (SyncImages ext images opt) w) = false ->
   files (snd (SyncImages ext images opt w)) = files w).
Proof.
  assert (Hruns : runs idW (fun _ => true) (SyncImages ext images opt)).
  { apply runs_SyncImages; [reflexivity|]. intros. apply runs_any_sync2DockerHub. }
  destruct (runs_eventsOf _ _ w Hruns) as (_ & _ & HM & HF). auto.
Qed.

(** X11. When the set-up has gone through and [ants.NewPool] returns an
    error, the run is over before any task: the pool was asked for the
    limit ([DefaultLimit] in the place of zero), the events are the
    starting line, the pool creation and the fatal line, and nothing is
    fetched, copied or stored. *)
Theorem pool_failure_is_fatal (images : Images) (opt opt' : SyncOption) (w : World)
  (err : error) :
  len images <= GoInt.int_max ->
  SyncImages_setup ext opt = Some opt' ->
  NewPool ext (Limit opt') = Some err ->
  exists imgs,
    batchProcess images opt = Some imgs /\
    Limit opt' = (if Limit opt =? 0 then DefaultLimit ext else Limit opt) /\
    fst (fst (SyncImages ext images opt w)) = Fatal /\
    eventsOf (SyncImages ext images opt) w
    = [EvLog (LogStarting (len imgs)); EvNewPool (Limit opt'); EvLog (LogPoolFailed err)] /\
    files (snd (SyncImages ext images opt w)) = files w /\
    fetchCalls (snd (SyncImages ext images opt w)) = fetchCalls w /\
    syncCalls (snd (SyncImages ext images opt w)) = syncCalls w.
Proof.
  intros Hmax Hsetup Hpool.
  destruct (batchProcess_total images opt Hmax) as (imgs & Himgs).
  pose proof (SyncImages_events images imgs opt opt' w Himgs Hsetup) as H.
  cbv zeta in H. rewrite Hpool in H. destruct H as (Hrun & Hev).
  exists imgs. rewrite Hrun, Hev.
  split; [exact Himgs|]. split; [exact (setup_limit opt opt' Hsetup)|].
  repeat split.
Qed.

(** X12. With [Report] set and a negative limit, [make] panics: the run
    ends there, after the starting line, before the pool is created and
    before any task. *)
Theorem negative_limit_panics (images : Images) (opt : SyncOption) (w : World) :
  len images <= GoInt.int_max ->
  Report opt = true -> Limit opt < 0 ->
  exists imgs,
    batchProcess images opt = Some imgs /\
    fst (fst (SyncImages ext images opt w)) = Panicked /\
    eventsOf (SyncImages ext images opt) w = [EvLog (LogStarting (len imgs))] /\
    snd (SyncImages ext images opt w)
    = snd (logLine (LogStarting (len imgs)) w).
Proof.
  intros Hmax HR Hneg.
  destruct (batchProcess_total images opt Hmax) as (imgs & Himgs).
  assert (Hnone : SyncImages_setup ext opt = None).
  { unfold SyncImages_setup. destruct (Z.eqb_spec (Limit opt) 0) as [E|E]; [lia|].
    rewrite HR. unfold make_chan.
    rewrite (proj2 (makechan_panics_true sizeofImage (Limit opt))); auto. }
  exists imgs. split; [exact Himgs|].
  unfold eventsOf, SyncImages. rewrite Himgs, St_bind_eq, Hnone. simpl.
  rewrite drop_app_length. auto.
Qed.






(** Tasks for which [ctx] is done add nothing to the trace. *)
Lemma runs_submitAll_cancelled (imgs : Images) (opt : SyncOption) :
  (forall image, ctxDone ext image = true) ->
  forall i, runs idW isSetup (submitAll ext imgs opt i).
Proof.
  intros Hdone. induction imgs as [|image rest IH]; intros i; simpl.
  - apply runs_ret.
  - destruct (poolSubmit ext i).
    + apply runs_bind; [apply runs_emit; reflexivity|]. intros _. apply runs_ret.
    + apply runs_bind; [|intros _; apply IH].
      unfold syncTask. rewrite Hdone. apply runs_ret.
Qed.

(** X15. Once [ctx] is done every task returns at its first statement:
    a run in which it is done for all images only logs its start,
    creates the pool and possibly logs a fatal error; nothing is fetched,
    copied or stored, and the files are as before. *)
Theorem cancelled_run_does_nothing (images : Images) (opt : SyncOption) (w : World) :
  (forall image, ctxDone ext image = true) ->
  forallb isSetup (eventsOf (SyncImages ext images opt) w) = true /\
  existsb isFetch (eventsOf (SyncImages ext images opt) w) = false /\
  existsb isSyncing (eventsOf (SyncImages ext images opt) w) = false /\
  existsb isPersist (eventsOf (SyncImages ext images opt) w) = false /\
  files (snd (SyncImages ext images opt w)) = files w.
Proof.
  intros Hdone.
  assert (Hruns : runs idW isSetup (SyncImages ext images opt)).
  { unfold SyncImages.
    destruct (batchProcess images opt) as [imgs|]; [|apply runs_ret].
    apply runs_bind; [apply runs_emit; reflexivity|]. intros _.
    destruct (SyncImages_setup ext opt) as [opt'|]; [|apply runs_ret].
    apply runs_bind; [apply runs_emit; reflexivity|]. intros _.
    destruct (NewPool ext (Limit opt')).
    - apply runs_bind; [apply runs_emit; reflexivity|]. intros _. apply runs_ret.
    - apply runs_bind; [apply runs_submitAll_cancelled, Hdone|].
      intros x. apply runs_ret. }
  destruct (runs_eventsOf _ _ w Hruns) as (_ & HP & _ & HF).
  assert (HQ : forall Q, (forall e, isSetup e = true -> Q e = false) ->
                         existsb Q (eventsOf (SyncImages ext images opt) w) = false).
  { intros Q HQ. apply (forallb_existsb_false isSetup); assumption. }
  repeat split; try exact HP; try (apply HQ; kind_cases).
  apply HF, HQ. kind_cases.
Qed.


End OrchestratorMore.

(** ** gcr.go: Init *)

Module GcrInitFacts.
Import GcrInit.

Lemma isEmpty_true (s : string) : isEmpty s = true <-> s = EmptyString.
Proof. unfold isEmpty. apply bool_decide_eq_true. Qed.

Lemma isEmpty_false (s : string) : isEmpty s = false <-> s <> EmptyString.
Proof. unfold isEmpty. apply bool_decide_eq_false. Qed.

Lemma make_limitCh_some (cap : Z) (c : nat) :
  Gcr.make_limitCh cap = Some c -> 0 <= cap /\ c = Z.to_nat cap.
Proof.
  unfold Gcr.make_limitCh.
  destruct (makechan_panics sizeofInt cap) eqn:E; [discriminate|].
  apply makechan_panics_false in E as [E _]. intros [= <-]. auto.
Qed.

Lemma make_limitCh_negative (cap : Z) : cap < 0 -> Gcr.make_limitCh cap = None.
Proof.
  intros H. unfold Gcr.make_limitCh.
  rewrite (proj2 (makechan_panics_true sizeofInt cap)); auto.
Qed.

(** What [Init] returns when it returns. *)
Lemma Init_ready (g g' : Gcr) :
  Init g = Ready g' ->
  g' = mkGcr (if isEmpty (NameSpace g) then "google-containers" else NameSpace g)
             (DockerHubUser g) (DockerHubPassword g)
             (if SyncTimeOut g =? 0 then 1 * Hour else SyncTimeOut g)
             (if HttpTimeOut g =? 0 then 5 * Second else HttpTimeOut g)
             (QueryLimit g) (ProcessLimit g)
             (Some (Z.to_nat (Gcr.Init_queryCap (limits g))))
             (Some (Z.to_nat (Gcr.Init_processCap (limits g)))) /\
  0 <= Gcr.Init_queryCap (limits g) /\ 0 <= Gcr.Init_processCap (limits g) /\
  isEmpty (DockerHubUser g) = false /\ isEmpty (DockerHubPassword g) = false.
Proof.
  unfold Init, Gcr.Init_queryCap, Gcr.Init_processCap, limits. simpl.
  destruct (Gcr.make_limitCh (if QueryLimit g =? 0 then 20 else QueryLimit g))
    as [qch|] eqn:Hq; [|discriminate].
  destruct (Gcr.make_limitCh (if ProcessLimit g =? 0 then 20 else ProcessLimit g))
    as [pch|] eqn:Hp; [|discriminate].
  apply make_limitCh_some in Hq as [Hq ->]. apply make_limitCh_some in Hp as [Hp ->].
  destruct (isEmpty (DockerHubUser g)); [discriminate|].
  destruct (isEmpty (DockerHubPassword g)); [discriminate|].
  simpl. intros [= <-]. auto.
Qed.

(** X16. After [Init] has returned, nothing it needs is left at its
    zero value: the namespace is not empty, both timeouts are not zero,
    the credentials are not empty, and both limit channels exist with a
    capacity of at least one (20 where the limit was zero, the limit
    otherwise); what the caller had set is kept, and the two limit
    fields themselves are not touched. *)
Theorem Init_fills_defaults (g g' : Gcr) :
  Init g = Ready g' ->
  NameSpace g' <> EmptyString /\ SyncTimeOut g' <> 0 /\ HttpTimeOut g' <> 0 /\
  DockerHubUser g' <> EmptyString /\ DockerHubPassword g' <> EmptyString /\
  (exists qc pc : nat,
      queryLimitCh g' = Some qc /\ processLimitCh g' = Some pc /\
      (1 <= qc)%nat /\ (1 <= pc)%nat /\
      Z.of_nat qc = (if QueryLimit g =? 0 then 20 else QueryLimit g) /\
      Z.of_nat pc = (if ProcessLimit g =? 0 then 20 else ProcessLimit g)) /\
  (NameSpace g <> EmptyString -> NameSpace g' = NameSpace g) /\
  (SyncTimeOut g <> 0 -> SyncTimeOut g' = SyncTimeOut g) /\
  (HttpTimeOut g <> 0 -> HttpTimeOut g' = HttpTimeOut g) /\
  QueryLimit g' = QueryLimit g /\ ProcessLimit g' = ProcessLimit g /\
  DockerHubUser g' = DockerHubUser g /\ DockerHubPassword g' = DockerHubPassword g.
Proof.
  intros H. apply Init_ready in H as (-> & Hq & Hp & Hu & Hpw). simpl.
  unfold Gcr.Init_queryCap, Gcr.Init_processCap, limits in *. simpl in *.
  apply isEmpty_false in Hu, Hpw.
  split; [|split; [|split; [|split; [|split; [|split; [|split; [|split; [|split]]]]]]]];
    try assumption.
  - destruct (isEmpty (NameSpace g)) eqn:E; [discriminate | apply isEmpty_false, E].
  - destruct (Z.eqb_spec (SyncTimeOut g) 0); [discriminate | assumption].
  - destruct (Z.eqb_spec (HttpTimeOut g) 0); [discriminate | assumption].
  - do 2 eexists. do 2 (split; [reflexivity|]).
    destruct (Z.eqb_spec (QueryLimit g) 0), (Z.eqb_spec (ProcessLimit g) 0);
      repeat split; lia.
  - intros Hn. apply isEmpty_false in Hn. rewrite Hn. reflexivity.
  - intros Hn. destruct (Z.eqb_spec (SyncTimeOut g) 0); [contradiction | reflexivity].
  - intros Hn. destruct (Z.eqb_spec (HttpTimeOut g) 0); [contradiction | reflexivity].
  - auto.
Qed.

Lemma Init_fills_defaults_witness :
  exists g', Init rawGcr = Ready g' /\ NameSpace g' <> EmptyString.
Proof.
  exists (mkGcr "google-containers" "mirror" "secret" (1 * Hour) (5 * Second) 0 3
                (Some 20%nat) (Some 3%nat)).
  split; [reflexivity|].
  apply (Init_fills_defaults rawGcr). reflexivity.
Defined.

(** X17. [Init] on what [Init] returned returns again, with every field
    as it is and with channels of the same capacities: the defaults are
    put in once. *)
Theorem Init_idempotent (g g' : Gcr) :
  Init g = Ready g' -> Init g' = Ready g'.
Proof.
  unfold Init. intros H.
  destruct (Gcr.make_limitCh (if QueryLimit g =? 0 then 20 else QueryLimit g))
    as [qch|] eqn:Hq; [|discriminate].
  destruct (Gcr.make_limitCh (if ProcessLimit g =? 0 then 20 else ProcessLimit g))
    as [pch|] eqn:Hp; [|discriminate].
  destruct (isEmpty (DockerHubUser g)) eqn:Hu; [discriminate|].
  destruct (isEmpty (DockerHubPassword g)) eqn:Hpw; [discriminate|].
  simpl in H. injection H as <-. simpl. rewrite Hq, Hp, Hu, Hpw. simpl.
  f_equal. f_equal.
  - destruct (isEmpty (NameSpace g)) eqn:E; [reflexivity | rewrite E; reflexivity].
  - destruct (Z.eqb_spec (SyncTimeOut g) 0) as [E|E]; [reflexivity|].
    destruct (Z.eqb_spec (SyncTimeOut g) 0); [contradiction | reflexivity].
  - destruct (Z.eqb_spec (HttpTimeOut g) 0) as [E|E]; [reflexivity|].
    destruct (Z.eqb_spec (HttpTimeOut g) 0); [contradiction | reflexivity].
Qed.

Lemma Init_idempotent_witness :
  Init (mkGcr "google-containers" "mirror" "secret" (1 * Hour) (5 * Second) 0 3
              (Some 20%nat) (Some 3%nat))
  = Ready (mkGcr "google-containers" "mirror" "secret" (1 * Hour) (5 * Second) 0 3
                 (Some 20%nat) (Some 3%nat)).
Proof. apply (Init_idempotent rawGcr). reflexivity. Defined.

(** X18. The order of the checks in [Init]: a negative limit makes it
    panic at [make], also when the credentials are missing; it ends
    fatally only with both limits accepted and the user or the password
    empty; and it returns only with both credentials given. *)
Theorem Init_failures (g : Gcr) :
  (QueryLimit g < 0 \/ ProcessLimit g < 0 -> Init g = Panicked) /\
  (Init g = Fatal ->
   0 <= QueryLimit g /\ 0 <= ProcessLimit g /\
   (DockerHubUser g = EmptyString \/ DockerHubPassword g = EmptyString)) /\
  (forall g', Init g = Ready g' ->
     DockerHubUser g <> EmptyString /\ DockerHubPassword g <> EmptyString).
Proof.
  assert (Hq : (if QueryLimit g =? 0 then 20 else QueryLimit g) < 0 <-> QueryLimit g < 0)
    by (destruct (Z.eqb_spec (QueryLimit g) 0); lia).
  assert (Hp : (if ProcessLimit g =? 0 then 20 else ProcessLimit g) < 0
               <-> ProcessLimit g < 0)
    by (destruct (Z.eqb_spec (ProcessLimit g) 0); lia).
  unfold Init.
  destruct (Z.lt_ge_cases (QueryLimit g) 0) as [Lq|Lq].
  { rewrite (make_limitCh_negative _ (proj2 Hq Lq)).
    repeat split; intros; try discriminate; auto; try lia. }
  destruct (Gcr.make_limitCh (if QueryLimit g =? 0 then 20 else QueryLimit g))
    as [qch|] eqn:Eq.
  2: { repeat split; intros; try discriminate; auto. }
  destruct (Z.lt_ge_cases (ProcessLimit g) 0) as [Lp|Lp].
  { rewrite (make_limitCh_negative _ (proj2 Hp Lp)).
    repeat split; intros; try discriminate; auto; try lia. }
  destruct (Gcr.make_limitCh (if ProcessLimit g =? 0 then 20 else ProcessLimit g))
    as [pch|] eqn:Ep.
  2: { repeat split; intros; try discriminate; auto; try lia. }
  destruct (isEmpty (DockerHubUser g)) eqn:Eu; simpl.
  { apply isEmpty_true in Eu.
    repeat split; intros; try discriminate; auto; try lia. }
  destruct (isEmpty (DockerHubPassword g)) eqn:Epw; simpl.
  { apply isEmpty_true in Epw.
    repeat split; intros; try discriminate; auto; try lia. }
  apply isEmpty_false in Eu, Epw.
  repeat split; intros; try discriminate; auto; try lia.
Qed.

End GcrInitFacts.

(** ** gcr.go: the slot channels, bounds and progress *)

Module GcrStepFacts.
Import Gcr GcrSteps GcrFacts.

Lemma gcrImageList_sound : sound gcrImageList_goroutine.
Proof.
  intros s pc m pc' n H.
  destruct pc as [| |a|a], m; simpl in H; try discriminate.
  - destruct (Nat.ltb_spec (chLen s) (chCap s)); [|discriminate].
    injection H as <- <-. simpl. lia.
  - injection H as <- <-. simpl. lia.
  - destruct (0 <? chLen s)%nat; [|discriminate]. injection H as <- <-. simpl. lia.
Qed.

Lemma Sync_sound : sound Sync_goroutine.
Proof.
  intros s pc m pc' n H.
  destruct pc as [| |a|a], m; simpl in H; try discriminate.
  - destruct (Nat.ltb_spec (chLen s) (chCap s)); [|discriminate].
    injection H as <- <-. simpl. lia.
  - destruct (cancelled s); [|discriminate]. injection H as <- <-. simpl. lia.
  - injection H as <- <-. simpl. lia.
  - destruct (0 <? chLen s)%nat; [|discriminate]. injection H as <- <-. simpl. lia.
Qed.

Lemma step_go (goroutine : Goroutine) (s : Sys) (i : nat) (m : Move) (pc pc' : PC)
  (n : nat) :
  gos s !! i = Some pc -> goroutine s pc m = Some (pc', n) ->
  step goroutine s (Go i m)
  = Some (mkSys n (chCap s) (cancelled s) (<[i := pc']> (gos s))).
Proof. intros Hi Hgo. unfold step. rewrite Hi. simpl. rewrite Hgo. reflexivity. Qed.

Lemma step_inv (goroutine : Goroutine) (s s' : Sys) (a : Action) :
  step goroutine s a = Some s' ->
  (a = Cancel /\ cancelled s = false
   /\ s' = mkSys (chLen s) (chCap s) true (gos s))
  \/ (exists i m pc pc' n,
        a = Go i m /\ gos s !! i = Some pc /\ goroutine s pc m = Some (pc', n) /\
        s' = mkSys n (chCap s) (cancelled s) (<[i := pc']> (gos s))).
Proof.
  destruct a as [i m|]; simpl; intros H.
  - right. destruct (gos s !! i) as [pc|] eqn:Hi; [|discriminate]. simpl in H.
    destruct (goroutine s pc m) as [[pc' n]|] eqn:Hgo; [|discriminate].
    injection H as <-. exists i, m, pc, pc', n. auto.
  - left. destruct (cancelled s); [discriminate|]. injection H as <-. auto.
Qed.

Lemma work_insert (l : list PC) (i : nat) (pc pc' : PC) :
  l !! i = Some pc ->
  (work (<[i := pc']> l) + todo pc = work l + todo pc')%nat.
Proof.
  unfold work. revert i. induction l as [|x l IH]; intros i H; [discriminate|].
  destruct i as [|i]; simpl in *.
  - injection H as ->. lia.
  - specialize (IH i H). lia.
Qed.

(** Each step uses up some of what is left to happen, and keeps the
    capacity and the bound on the buffered values. *)
Lemma step_potential (goroutine : Goroutine) (s s' : Sys) (a : Action) :
  sound goroutine -> step goroutine s a = Some s' ->
  (potential s' < potential s)%nat /\ chCap s' = chCap s /\
  length (gos s') = length (gos s) /\
  ((chLen s <= chCap s)%nat -> (chLen s' <= chCap s')%nat) /\
  (cancelled s = true -> cancelled s' = true).
Proof.
  intros Hsound Hstep.
  apply step_inv in Hstep
    as [(-> & Hc & ->)|(i & m & pc & pc' & n & -> & Hi & Hgo & ->)].
  - unfold potential. simpl. rewrite Hc. repeat split; auto; lia.
  - destruct (Hsound _ _ _ _ _ Hgo) as (Htodo & Hcap).
    pose proof (work_insert (gos s) i pc pc' Hi) as Hw.
    unfold potential. simpl. rewrite length_insert. repeat split; auto. lia.
Qed.

Lemma run_potential (goroutine : Goroutine) (acts : list Action) :
  sound goroutine ->
  forall s s' : Sys,
    run goroutine s acts = Some s' ->
    (length acts + potential s' <= potential s)%nat /\ chCap s' = chCap s /\
    length (gos s') = length (gos s) /\
    ((chLen s <= chCap s)%nat -> (chLen s' <= chCap s')%nat) /\
    (cancelled s = true -> cancelled s' = true).
Proof.
  intros Hsound. induction acts as [|a acts IH]; intros s s' Hrun; simpl in Hrun.
  - injection Hrun as <-. simpl. repeat split; auto.
  - destruct (step goroutine s a) as [s1|] eqn:Hstep; [|discriminate]. simpl in Hrun.
    destruct (step_potential _ _ _ _ Hsound Hstep) as (H1 & H2 & H3 & H4 & H5).
    destruct (IH _ _ Hrun) as (I1 & I2 & I3 & I4 & I5).
    simpl. repeat split; try congruence; auto. lia.
Qed.

Lemma potential_spawn (cap n : nat) : potential (spawn cap n) = (3 * n + 1)%nat.
Proof.
  unfold potential, spawn, work. simpl.
  induction n as [|n IH]; simpl in *; lia.
Qed.

Lemma holders_none (l : list PC) :
  holders l = 0%nat -> forall pc, In pc l -> holds pc = false.
Proof.
  unfold holders. induction l as [|x l IH]; intros H pc Hin; [destruct Hin|].
  simpl in H. destruct (holds x) eqn:Hx; [simpl in H; lia|].
  destruct Hin as [<-|Hin]; auto.
Qed.

Lemma holders_pos (l : list PC) (pc : PC) :
  In pc l -> holds pc = true -> (0 < holders l)%nat.
Proof.
  intros Hin Hh. unfold holders.
  assert (Hf : In pc (List.filter holds l)) by (apply filter_In; auto).
  destruct (List.filter holds l); [destruct Hf | simpl; lia].
Qed.

Lemma lookup_In (l : list PC) (i : nat) (pc : PC) : l !! i = Some pc -> In pc l.
Proof. intros H. apply list_elem_of_In. eapply list_elem_of_lookup_2, H. Qed.

Lemma In_lookup (l : list PC) (pc : PC) : In pc l -> exists i, l !! i = Some pc.
Proof. intros H. apply list_elem_of_In in H. apply list_elem_of_lookup_1, H. Qed.

(** With the slots accounted for and room for one value, a state in
    which no goroutine can move is one in which all are over. *)
Lemma matched_progress (goroutine : Goroutine) (s : Sys) :
  (forall s pc m, m <> TakeDone ->
                  goroutine s pc m = gcrImageList_goroutine s pc m) ->
  matched s -> (1 <= chCap s)%nat ->
  (forall i m, step goroutine s (Go i m) = None) ->
  forallb finished (gos s) = true /\ chLen s = 0%nat.
Proof.
  intros Hsame [Hacq Hlen] Hcap Hstuck.
  assert (Hmove : forall i pc m pc' n,
            gos s !! i = Some pc -> m <> TakeDone ->
            gcrImageList_goroutine s pc m = Some (pc', n) -> False).
  { intros i pc m pc' n Hi Hm Hgo. rewrite <- Hsame in Hgo by exact Hm.
    specialize (Hstuck i m). rewrite (step_go _ _ _ _ _ _ _ Hi Hgo) in Hstuck.
    discriminate. }
  assert (Hnone : forall pc, In pc (gos s) -> holds pc = false).
  { intros pc Hin. destruct (holds pc) eqn:Hh; [|reflexivity]. exfalso.
    pose proof (holders_pos _ _ Hin Hh) as Hpos.
    destruct (In_lookup _ _ Hin) as (i & Hi).
    destruct pc as [| |[]|]; simpl in Hh; try discriminate.
    - apply (Hmove i Working Return (Leaving true) (chLen s) Hi); [discriminate|].
      reflexivity.
    - apply (Hmove i (Leaving true) Recv (Gone true) (pred (chLen s)) Hi);
        [discriminate|].
      simpl. destruct (Nat.ltb_spec 0 (chLen s)); [reflexivity | lia]. }
  assert (Hzero : chLen s = 0%nat).
  { rewrite Hlen. unfold holders.
    destruct (List.filter holds (gos s)) as [|x l] eqn:Hf; [reflexivity|]. exfalso.
    assert (Hx : In x (List.filter holds (gos s))) by (rewrite Hf; left; reflexivity).
    apply filter_In in Hx as [Hx Hh]. rewrite (Hnone x Hx) in Hh. discriminate. }
  split; [|exact Hzero].
  apply forallb_forall. intros pc Hin.
  specialize (Hacq pc Hin). specialize (Hnone pc Hin).
  destruct (In_lookup _ _ Hin) as (i & Hi).
  destruct pc as [| |[]|[]]; simpl in *; try discriminate; try reflexivity.
  exfalso. apply (Hmove i Spawned Send Working (S (chLen s)) Hi); [discriminate|].
  simpl. destruct (Nat.ltb_spec (chLen s) (chCap s)); [reflexivity | lia].
Qed.

Lemma Sync_same_moves (s : Sys) (pc : PC) (m : Move) :
  m <> TakeDone \/ cancelled s = false ->
  Sync_goroutine s pc m = gcrImageList_goroutine s pc m.
Proof.
  intros H. destruct pc, m; simpl; try reflexivity.
  destruct H as [H | ->]; [contradiction | reflexivity].
Qed.

(** Until the deadline passes, a schedule of [Gcr.Sync] is a schedule of
    the goroutines of [gcrImageList]. *)
Lemma run_Sync_before_deadline (acts : list Action) :
  forall s s' : Sys,
    run Sync_goroutine s acts = Some s' -> cancelled s' = false ->
    run gcrImageList_goroutine s acts = Some s'.
Proof.
  induction acts as [|a acts IH]; intros s s' Hrun Hc; [exact Hrun|].
  simpl in *. destruct (step Sync_goroutine s a) as [s1|] eqn:Hstep; [|discriminate].
  simpl in Hrun.
  destruct (run_potential _ acts Sync_sound _ _ Hrun) as (_ & _ & _ & _ & Hmono).
  destruct (step_potential _ _ _ _ Sync_sound Hstep) as (_ & _ & _ & _ & Hmono0).
  assert (Hc1 : cancelled s1 = false)
    by (destruct (cancelled s1); [rewrite Hmono in Hc by reflexivity; discriminate
                                 | reflexivity]).
  assert (Hc0 : cancelled s = false)
    by (destruct (cancelled s); [rewrite Hmono0 in Hc1 by reflexivity; discriminate
                                | reflexivity]).
  assert (Hsame : step gcrImageList_goroutine s a = Some s1).
  { rewrite <- Hstep. destruct a as [i m|]; [|reflexivity]. unfold step.
    destruct (gos s !! i) as [pc|]; [|reflexivity]. simpl.
    rewrite Sync_same_moves by (right; exact Hc0). reflexivity. }
  rewrite Hsame. simpl. apply IH; assumption.
Qed.

Lemma spawn_bounded (cap n : nat) : (chLen (spawn cap n) <= chCap (spawn cap n))%nat.
Proof. simpl. lia. Qed.

(** X19. In [gcrImageList], whatever the schedule, the values buffered
    in [queryLimitCh] are exactly those of the goroutines between their
    send and their deferred receive, so at most as many goroutines as
    the channel has capacity are querying at any time; and no goroutine
    reaches its deferred receive without having sent. *)
Theorem gcrImageList_in_flight_bounded (cap n : nat) (acts : list Action) (s : Sys) :
  run gcrImageList_goroutine (spawn cap n) acts = Some s ->
  holders (gos s) = chLen s /\ (holders (gos s) <= cap)%nat /\
  length (gos s) = n /\
  forallb (fun pc => negb (unacquired pc)) (gos s) = true.
Proof.
  intros Hrun.
  destruct (gcrImageList_matched cap n acts s Hrun) as (Hacq & Hlen).
  destruct (run_potential _ acts gcrImageList_sound _ _ Hrun)
    as (_ & Hcap & Hn & Hbound & _).
  specialize (Hbound (spawn_bounded cap n)). simpl in Hcap, Hn.
  rewrite length_replicate in Hn.
  split; [symmetry; exact Hlen|]. split; [|split; [exact Hn|]].
  - rewrite <- Hlen, <- Hcap. exact Hbound.
  - apply forallb_forall. intros pc Hin. rewrite (Hacq pc Hin). reflexivity.
Qed.

Lemma gcrImageList_in_flight_bounded_witness :
  exists s, run gcrImageList_goroutine (spawn 1 2) [Go 1 Send; Go 1 Return] = Some s /\
            holders (gos s) = chLen s.
Proof.
  eexists. split; [reflexivity|].
  apply (gcrImageList_in_flight_bounded 1 2 [Go 1 Send; Go 1 Return]). reflexivity.
Defined.

(** X20. The slot protocol of [gcrImageList] cannot get stuck (the body
    of a goroutine taken to return): with a capacity of at least one, a
    state in which no goroutine can move is one in which every
    goroutine is over, having given back the slot it took, and the
    channel is empty; and a schedule of [n] goroutines has at most
    [3 * n + 1] steps.  So [imgGetWg.Wait] returns. *)
Theorem gcrImageList_no_deadlock (cap n : nat) (acts : list Action) (s : Sys) :
  (1 <= cap)%nat ->
  run gcrImageList_goroutine (spawn cap n) acts = Some s ->
  (length acts <= 3 * n + 1)%nat /\
  ((forall i m, step gcrImageList_goroutine s (Go i m) = None) ->
   forallb finished (gos s) = true /\ chLen s = 0%nat).
Proof.
  intros Hcap Hrun.
  destruct (run_potential _ acts gcrImageList_sound _ _ Hrun) as (Hpot & Hc & _).
  rewrite potential_spawn in Hpot. split; [lia|].
  apply (matched_progress gcrImageList_goroutine).
  - reflexivity.
  - apply (gcrImageList_matched cap n acts s Hrun).
  - rewrite Hc. simpl. exact Hcap.
Qed.

Lemma gcrImageList_no_deadlock_witness :
  exists s,
    run gcrImageList_goroutine (spawn 1 1) [Go 0 Send; Go 0 Return; Go 0 Recv] = Some s /\
    (length [Go 0 Send; Go 0 Return; Go 0 Recv] <= 3 * 1 + 1)%nat.
Proof.
  eexists. split; [reflexivity|].
  apply (gcrImageList_no_deadlock 1 1 [Go 0 Send; Go 0 Return; Go 0 Recv]
           (mkSys 0 1 false [Gone true])); [lia | reflexivity].
Defined.

(** X21. [Gcr.Sync] as long as the deadline of [ctx] has not passed: at
    most as many goroutines as [processLimitCh] has capacity are in
    [g.process], every goroutine past its body has sent, and a state in
    which no goroutine can move is one in which all are over.  With or
    without the deadline, a schedule of [n] goroutines has at most
    [3 * n + 1] steps. *)
Theorem Sync_before_deadline (cap n : nat) (acts : list Action) (s : Sys) :
  (1 <= cap)%nat ->
  run Sync_goroutine (spawn cap n) acts = Some s ->
  (length acts <= 3 * n + 1)%nat /\
  (cancelled s = false ->
   matched s /\ (holders (gos s) <= cap)%nat /\
   ((forall i m, step Sync_goroutine s (Go i m) = None) ->
    forallb finished (gos s) = true /\ chLen s = 0%nat)).
Proof.
  intros Hcap Hrun.
  destruct (run_potential _ acts Sync_sound _ _ Hrun) as (Hpot & Hc & _ & Hbound & _).
  rewrite potential_spawn in Hpot. split; [lia|]. intros Hlive.
  pose proof (run_Sync_before_deadline acts _ _ Hrun Hlive) as Hrun'.
  pose proof (gcrImageList_matched cap n acts s Hrun') as Hm.
  specialize (Hbound (spawn_bounded cap n)). simpl in Hc.
  split; [exact Hm|]. split.
  - destruct Hm as (_ & Hlen). rewrite <- Hlen, <- Hc. exact Hbound.
  - apply (matched_progress Sync_goroutine).
    + intros s0 pc m Hm0. apply Sync_same_moves. left. exact Hm0.
    + exact Hm.
    + rewrite Hc. exact Hcap.
Qed.

Lemma Sync_before_deadline_witness :
  (length [Go 0 Send; Go 1 Send] <= 3 * 3 + 1)%nat.
Proof.
  apply (Sync_before_deadline 2 3 [Go 0 Send; Go 1 Send]
           (mkSys 2 2 false [Working; Working; Spawned])); [lia | reflexivity].
Defined.

End GcrStepFacts.

(** *** The further properties on the concrete outside *)

Lemma unchanged_image_skipped_witness :
  outcomeOf (eventsOf (syncTask (demoExt fetchSecond copyThird false) pause manifestsOnlyOpt)
               (freshWorld {[ "gcr.io/google-containers/pause:3.2" := "sha256:aa" ]}))
  = Some SkippedUnchanged.
Proof.
  apply (unchanged_image_skipped (demoExt fetchSecond copyThird false) pause
           manifestsOnlyOpt
           (freshWorld {[ "gcr.io/google-containers/pause:3.2" := "sha256:aa" ]})
           1 (Some "sha256:aa") None "sha256:aa").
  - reflexivity.
  - vm_compute. lia.
  - intros i Hi. assert (i = 0%nat) as -> by lia. vm_compute. discriminate.
  - reflexivity.
  - reflexivity.
  - left. exists "sha256:aa". split; reflexivity.
Defined.



Lemma checkSync_read_only_witness :
  exists j : nat,
    (j <= 3)%nat /\
    fetchCalls (snd (checkSync (demoExt fetchSecond copyThird false) pause (freshWorld ∅)))
    = (0 + j)%nat.
Proof.
  destruct (checkSync_read_only (demoExt fetchSecond copyThird false) pause (freshWorld ∅))
    as (j & Hj & Hcalls & _).
  - reflexivity.
  - exists j. split; [exact Hj | exact Hcalls].
Defined.

Lemma synced_manifest_stored_witness :
  exists ferr,
    In (EvWriteFile "manifests/gcr.io/google-containers/pause/3.2.json" "sha256:aa" ferr)
       (eventsOf (syncTask (demoExt fetchSecond copyThird false) pause (batchOpt 0 0))
                 (freshWorld ∅)).
Proof.
  destruct (synced_manifest_stored (demoExt fetchSecond copyThird false) pause
              (batchOpt 0 0) (freshWorld ∅)) as (ferr & Hin & _).
  - reflexivity.
  - reflexivity.
  - reflexivity.
  - exists ferr. exact Hin.
Defined.

Lemma task_copies_within_budget_witness :
  (length (List.filter isCopy
             (eventsOf (syncTask (demoExt fetchSecond copyDown false) pause (batchOpt 0 0))
                       (freshWorld ∅))) <= 3)%nat.
Proof.
  apply (task_copies_within_budget (demoExt fetchSecond copyDown false) pause
           (batchOpt 0 0) (freshWorld ∅)).
  reflexivity.
Defined.

Lemma pool_failure_is_fatal_witness :
  exists imgs,
    batchProcess [pause; pause31] (batchOpt 0 0) = Some imgs /\
    fst (fst (SyncImages (demoPoolExt (fun _ => Some "invalid size") (fun _ => None))
                [pause; pause31] (batchOpt 0 0) (freshWorld ∅))) = Fatal.
Proof.
  destruct (pool_failure_is_fatal (demoPoolExt (fun _ => Some "invalid size") (fun _ => None))
              [pause; pause31] (batchOpt 0 0) (setLimit (batchOpt 0 0) 20)
              (freshWorld ∅) "invalid size")
    as (imgs & Himgs & _ & Hexit & _).
  - vm_compute. discriminate.
  - reflexivity.
  - reflexivity.
  - exists imgs. split; assumption.
Defined.

Lemma negative_limit_panics_witness :
  exists imgs,
    batchProcess [pause; pause31] negativeLimitOpt = Some imgs /\
    fst (fst (SyncImages (demoExt fetchSecond copyThird false) [pause; pause31]
                negativeLimitOpt (freshWorld ∅))) = Panicked.
Proof.
  destruct (negative_limit_panics (demoExt fetchSecond copyThird false)
              [pause; pause31] negativeLimitOpt (freshWorld ∅))
    as (imgs & Himgs & Hexit & _).
  - vm_compute. discriminate.
  - reflexivity.
  - reflexivity.
  - exists imgs. split; assumption.
Defined.



Lemma cancelled_run_does_nothing_witness :
  existsb isFetch
    (eventsOf (SyncImages (demoExt fetchSecond copyThird true) [pause; pause31]
                 (batchOpt 0 0)) (freshWorld ∅)) = false.
Proof.
  apply (cancelled_run_does_nothing (demoExt fetchSecond copyThird true)
           [pause; pause31] (batchOpt 0 0) (freshWorld ∅)).
  reflexivity.
Defined.

(** Two images, the pool refusing the second task: only the first is
    processed. *)
Example run_submit_refused :
  List.filter isProcessLine
    (eventsOf (SyncImages
                 (demoPoolExt (fun _ => None)
                    (fun k => match k with 1%nat => Some "pool closed" | _ => None end))
                 [pause31; pause] (batchOpt 0 0)) (freshWorld ∅))
  = [EvLog (LogProcess "gcr.io/google-containers/pause:3.1")].
Proof. reflexivity. Qed.
